(** * View selection (packages/ckeditor5-engine/src/view/selection.js)

    A shallow embedding of the [Selection] class of the view layer, and
    the properties of its range list, its direction, its comparisons and
    its fake-selection metadata.  The constructor, [anchor], [focus],
    [isCollapsed], [rangeCount], [isBackward], [getRanges], [isEqual],
    [isSimilar], [_setTo], [_setRanges], [_setFocus], [_setFakeOptions],
    [_addRange] and [_pushRange] are embedded; the queries on the first
    and last range and on the selected element are not.

    Objects.  JavaScript objects have an identity.  [Position] and [Range]
    objects are never mutated by selection.js, so each is modelled by its
    reference together with its content.  [Selection] objects are mutated
    in place and may be aliased (a selection can be handed to its own
    [_setTo]), so they live in a store, a finite map from references.
    Every [new] draws a fresh reference from one allocator.

    Effects.  Methods run in a state-and-exception monad over that store;
    a thrown [CKEditorError] keeps the store as it was at the throw, as in
    JavaScript. *)

From stdpp Require Import base decidable option list strings gmap.
From Stdlib Require Import ZArith Lia.

Open Scope string_scope.
Open Scope nat_scope.
Open Scope list_scope.

(** ** Arguments *)

(** An options object, by the properties that selection.js reads; [None]
    is a property that is not there. *)
Record Options := {
  backward : option bool;
  fake : option bool;
  label : option string
}.

(** A second or third argument of [_setTo], or the [offset] of [_setFocus]:
    [undefined], an options object, a string ('in', 'on', 'before', ...) or
    a number. *)
Inductive Arg :=
  | undefined
  | an_object (o : Options)
  | a_string (s : string)
  | a_number (n : Z).

(** Object references. *)
Abbreviation ref := nat.

(** ** Collaborators *)

(** Modelled from the spec: the Position, Range and Node classes
    (./position, ./range, ./node), which selection.js imports and which
    are not part of it.  The specification gives their interface only, and
    it is taken as a parameter: what a position points at, with value
    equality and the comparison of two positions, and the geometry of
    ranges as functions of where their two ends point. *)
Class Collaborators := {
  (** what a position points at: a parent node and an offset in it *)
  Pos : Type;
  (** [Position#isEqual] is equality of that content *)
  Pos_eq_dec :: EqDecision Pos;
  (** view nodes (items) *)
  Node : Type;
  (** [Position#compareWith], a string such as 'before', 'after', 'same' *)
  compareWith : Pos → Pos → string;
  (** [Range#isIntersecting], on the contents of (start, end) *)
  isIntersecting : Pos * Pos → Pos * Pos → bool;
  (** [Range#getTrimmed] *)
  getTrimmed : Pos * Pos → Pos * Pos;
  (** [Position.createAt( item, offset )]; [None] when it throws *)
  createAt_item : Node → Arg → option Pos;
  (** [Range.createIn( item )] and [Range.createOn( item )] *)
  createIn_item : Node → option (Pos * Pos);
  createOn_item : Node → option (Pos * Pos)
}.

Section selection.
Context `{Collaborators}.

(** ** Objects *)

Record Position := { pos_ref : ref; pos_at : Pos }.

(** [end] is a keyword, the field is [end_]. *)
Record Range := { range_ref : ref; start : Position; end_ : Position }.

(** A JavaScript value where a Range is expected. *)
Inductive Value :=
  | a_Range (r : Range)
  | not_a_Range.

Record Selection := {
  _ranges : list Range;
  _lastRangeBackward : bool;
  _isFake : bool;
  _fakeSelectionLabel : string
}.

(** The errors thrown in selection.js, named by their codes, then a
    TypeError (a property read on null) and an error thrown by a
    collaborator's factory. *)
Inductive CKEditorError :=
  | view_selection_invalid_range
  | view_selection_range_intersects (addedRange intersectingRange : Range)
  | view_selection_setTo_required_second_parameter
  | view_selection_setTo_not_selectable
  | view_selection_setFocus_no_ranges
  | TypeError
  | collaborator_error.

Record World := {
  selections : gmap ref Selection;
  next_ref : ref;
  fired : list (ref * string)
}.

(** ** The monad *)

Inductive Result (A : Type) :=
  | Return (a : A)
  | Throw (e : CKEditorError).
Arguments Return {A} a.
Arguments Throw {A} e.

Definition M (A : Type) := World → Result A * World.

Definition ret {A} (a : A) : M A := λ w, (Return a, w).
Definition throw {A} (e : CKEditorError) : M A := λ w, (Throw e, w).
Definition bind {A B} (m : M A) (k : A → M B) : M B :=
  λ w, match m w with
       | (Return a, w') => k a w'
       | (Throw e, w') => (Throw e, w')
       end.

Notation "'let!' x ':=' m 'in' k" := (bind m (λ x, k))
  (at level 10, x pattern, m at level 100, k at level 200).
Notation "m ';;' k" := (bind m (λ _, k))
  (at level 100, k at level 200, right associativity).

(** [new]: a fresh reference. *)
Definition alloc : M ref :=
  λ w, (Return (next_ref w),
        {| selections := selections w; next_ref := S (next_ref w); fired := fired w |}).

(** read and write the fields of the selection object at [this]; a
    reference to no selection has no fields to read *)
Definition read (this : ref) : M Selection :=
  λ w, match selections w !! this with
       | Some s => (Return s, w)
       | None => (Throw TypeError, w)
       end.

Definition write (this : ref) (s : Selection) : M unit :=
  λ w, (Return tt,
        {| selections := <[this := s]> (selections w);
           next_ref := next_ref w; fired := fired w |}).

(** Modelled from the spec: [this.fire( name )] of EmitterMixin; the
    event is logged. *)
Definition fire (this : ref) (name : string) : M unit :=
  λ w, (Return tt,
        {| selections := selections w; next_ref := next_ref w;
           fired := fired w ++ [(this, name)] |}).

(** An iterable: obtaining its iterator and each [next()] may run code. *)
Definition Iterable (A : Type) := M (list (M A)).

Definition array {A} (l : list A) : Iterable A := ret (ret <$> l).

(** [for ( const x of it ) body] *)
Fixpoint for_each {A} (items : list (M A)) (body : A → M unit) : M unit :=
  match items with
  | [] => ret tt
  | next :: rest => let! x := next in body x ;; for_each rest body
  end.

Definition for_of {A} (it : Iterable A) (body : A → M unit) : M unit :=
  let! items := it in for_each items body.

(** ** Position and Range, as selection.js uses them *)

Definition range_at (r : Range) : Pos * Pos := (pos_at (start r), pos_at (end_ r)).

(** Modelled from the spec: [new Position] of ./position, a new object
    that points where it is told. *)
Definition new_Position (p : Pos) : M Position :=
  let! id := alloc in ret {| pos_ref := id; pos_at := p |}.

(** Modelled from the spec: the copy constructor of Position, a new
    object that points where [position] does. *)
Definition Position_createFromPosition (position : Position) : M Position :=
  new_Position (pos_at position).

(** Modelled from the spec: [new Range( start, end )] of ./range, a new
    object that holds copies of the two positions. *)
Definition new_Range (start_ end' : Position) : M Range :=
  let! s := Position_createFromPosition start_ in
  let! e := Position_createFromPosition end' in
  let! id := alloc in
  ret {| range_ref := id; start := s; end_ := e |}.

(** Modelled from the spec: the copy constructor of Range. *)
Definition Range_createFromRange (range : Range) : M Range :=
  new_Range (start range) (end_ range).

(** Modelled from the spec: [Position#isEqual], value equality. *)
Definition Position_isEqual (p q : Position) : bool :=
  bool_decide (pos_at p = pos_at q).

(** Modelled from the spec: [Position#compareWith]. *)
Definition Position_compareWith (p q : Position) : string :=
  compareWith (pos_at p) (pos_at q).

(** Modelled from the spec: [Range#isEqual], both ends value-equal. *)
Definition Range_isEqual (r otherRange : Range) : bool :=
  Position_isEqual (start r) (start otherRange)
  && Position_isEqual (end_ r) (end_ otherRange).

(** Modelled from the spec: [Range#isCollapsed], start equal to end. *)
Definition Range_isCollapsed (r : Range) : bool :=
  Position_isEqual (start r) (end_ r).

(** Modelled from the spec: [Range#isIntersecting]. *)
Definition Range_isIntersecting (r otherRange : Range) : bool :=
  isIntersecting (range_at r) (range_at otherRange).

(** Modelled from the spec: a new range that a method or factory of
    Range returns, by where its two ends point. *)
Definition Range_of (se : Pos * Pos) : M Range :=
  let! s := new_Position se.1 in
  let! e := new_Position se.2 in
  let! id := alloc in
  ret {| range_ref := id; start := s; end_ := e |}.

(** Modelled from the spec: [Range#getTrimmed]. *)
Definition Range_getTrimmed (r : Range) : M Range :=
  Range_of (getTrimmed (range_at r)).

(** a factory of a collaborator returns or throws *)
Definition from_option {A} (o : option A) : M A :=
  match o with
  | Some a => ret a
  | None => throw collaborator_error
  end.

(** Modelled from the spec: [Position.createAt], a copy of a position, or
    a new position at an offset in or around an item. *)
Definition Position_createAt (itemOrPosition : Node + Position) (offset : Arg)
  : M Position :=
  match itemOrPosition with
  | inr position => Position_createFromPosition position
  | inl node => let! p := from_option (createAt_item node offset) in new_Position p
  end.

(** Modelled from the spec: [Range.createIn], [Range.createOn] and
    [Range.createCollapsedAt]. *)
Definition Range_createIn (item : Node) : M Range :=
  let! se := from_option (createIn_item item) in Range_of se.

Definition Range_createOn (item : Node) : M Range :=
  let! se := from_option (createOn_item item) in Range_of se.

Definition Range_createCollapsedAt (item : Node) (offset : Arg) : M Range :=
  let! s := Position_createAt (inl item) offset in new_Range s s.

(** ** Selection *)

Definition set_ranges (l : list Range) (s : Selection) : Selection :=
  {| _ranges := l; _lastRangeBackward := _lastRangeBackward s;
     _isFake := _isFake s; _fakeSelectionLabel := _fakeSelectionLabel s |}.

Definition set_lastRangeBackward (b : bool) (s : Selection) : Selection :=
  {| _ranges := _ranges s; _lastRangeBackward := b;
     _isFake := _isFake s; _fakeSelectionLabel := _fakeSelectionLabel s |}.

Definition set_fake (b : bool) (l : string) (s : Selection) : Selection :=
  {| _ranges := _ranges s; _lastRangeBackward := _lastRangeBackward s;
     _isFake := b; _fakeSelectionLabel := l |}.

(** [this.field = ...] *)
Definition modify (this : ref) (f : Selection → Selection) : M unit :=
  let! s := read this in write this (f s).

(** Getters that only read fields, on the fields read. *)
Definition isFake (s : Selection) : bool := _isFake s.

Definition fakeSelectionLabel (s : Selection) : string := _fakeSelectionLabel s.

Definition rangeCount (s : Selection) : nat := length (_ranges s).

Definition isCollapsed (s : Selection) : bool :=
  (rangeCount s =? 1)%nat &&
  match _ranges s !! 0%nat with
  | Some range => Range_isCollapsed range
  | None => false
  end.

Definition isBackward (s : Selection) : bool :=
  negb (isCollapsed s) && _lastRangeBackward s.

(** Reading a property of an argument: an options object has it or not,
    [undefined] stands for the default [{}] or stops [a && a.p] early, and
    a primitive has none of the three. *)
Definition prop_backward (a : Arg) : option bool :=
  match a with an_object o => backward o | _ => None end.

Definition prop_fake (a : Arg) : option bool :=
  match a with an_object o => fake o | _ => None end.

Definition prop_label (a : Arg) : option string :=
  match a with an_object o => label o | _ => None end.

(** [!!v] on a Boolean or undefined *)
Definition truthy (v : option bool) : bool := default false v.

Definition anchor (this : ref) : M (option Position) :=
  let! s := read this in
  if (length (_ranges s) =? 0)%nat then ret None
  else
    match _ranges s !! (length (_ranges s) - 1)%nat with
    | None => throw TypeError
    | Some range =>
        let anchor := if _lastRangeBackward s then end_ range else start range in
        let! copy := Position_createFromPosition anchor in
        ret (Some copy)
    end.

Definition focus (this : ref) : M (option Position) :=
  let! s := read this in
  if (length (_ranges s) =? 0)%nat then ret None
  else
    match _ranges s !! (length (_ranges s) - 1)%nat with
    | None => throw TypeError
    | Some range =>
        let focus := if _lastRangeBackward s then start range else end_ range in
        let! copy := Position_createFromPosition focus in
        ret (Some copy)
    end.

(** The generator: its body starts at the first [next()], reads
    [this._ranges] then, and yields one copy at each step. *)
Definition getRanges (this : ref) : Iterable Range :=
  let! s := read this in
  ret (Range_createFromRange <$> _ranges s).

(** the same iterable, its items seen as values of any kind *)
Definition as_values (it : Iterable Range) : Iterable Value :=
  let! items := it in
  ret ((λ next, let! range := next in ret (a_Range range)) <$> items).

(** [a.isEqual( b )] on two getter results; null has no method. *)
Definition isEqual_positions (a b : option Position) : M bool :=
  match a, b with
  | Some p, Some q => ret (Position_isEqual p q)
  | _, _ => throw TypeError
  end.

Definition isEqual (this otherSelection : ref) : M bool :=
  let! a := read this in
  let! b := read otherSelection in
  if negb (eqb (isFake a) (isFake b)) then ret false
  else if isFake a && negb (String.eqb (fakeSelectionLabel a) (fakeSelectionLabel b))
  then ret false
  else if negb (rangeCount a =? rangeCount b)%nat then ret false
  else if (rangeCount a =? 0)%nat then ret true
  else
    let! thisAnchor := anchor this in
    let! otherAnchor := anchor otherSelection in
    let! sameAnchor := isEqual_positions thisAnchor otherAnchor in
    if negb sameAnchor then ret false
    else
      let! thisFocus := focus this in
      let! otherFocus := focus otherSelection in
      let! sameFocus := isEqual_positions thisFocus otherFocus in
      if negb sameFocus then ret false
      else
        ret (forallb (λ thisRange,
                        existsb (λ otherRange, Range_isEqual thisRange otherRange)
                                (_ranges b))
                     (_ranges a)).

(** Modelled from the spec: [count( iterable )] of ckeditor5-utils, which
    runs the iterator to its end. *)
Fixpoint count_items {A} (items : list (M A)) : M nat :=
  match items with
  | [] => ret 0%nat
  | next :: rest => let! _ := next in let! n := count_items rest in ret (S n)
  end.

Definition count {A} (it : Iterable A) : M nat :=
  let! items := it in count_items items.

(** the inner loop of [isSimilar]: is some trimmed range of the other
    selection at the ends of [rangeA]? *)
Fixpoint some_similar (rangeA : Range) (others : list (M Range)) : M bool :=
  match others with
  | [] => ret false
  | next :: rest =>
      let! rangeB := next in
      let! rangeB := Range_getTrimmed rangeB in
      if Position_isEqual (start rangeA) (start rangeB)
         && Position_isEqual (end_ rangeA) (end_ rangeB)
      then ret true
      else some_similar rangeA rest
  end.

(** the outer loop *)
Fixpoint all_similar (these : list (M Range)) (others : Iterable Range) : M bool :=
  match these with
  | [] => ret true
  | next :: rest =>
      let! rangeA := next in
      let! rangeA := Range_getTrimmed rangeA in
      let! items := others in
      let! found := some_similar rangeA items in
      if negb found then ret false else all_similar rest others
  end.

Definition isSimilar (this otherSelection : ref) : M bool :=
  let! a := read this in
  let! b := read otherSelection in
  if negb (eqb (isBackward a) (isBackward b)) then ret false
  else
    let! numOfRangesA := count (getRanges this) in
    let! numOfRangesB := count (getRanges otherSelection) in
    if negb (numOfRangesA =? numOfRangesB)%nat then ret false
    else if (numOfRangesA =? 0)%nat then ret true
    else
      let! these := getRanges this in
      all_similar these (getRanges otherSelection).

Definition _pushRange (this : ref) (range : Range) : M unit :=
  let! s := read this in
  for_of (array (_ranges s))
    (λ storedRange,
       if Range_isIntersecting range storedRange
       then throw (view_selection_range_intersects range storedRange)
       else ret tt) ;;
  let! copy := Range_createFromRange range in
  modify this (λ s, set_ranges (_ranges s ++ [copy]) s).

Definition _addRange (this : ref) (range : Value) (isBackward : bool) : M unit :=
  match range with
  | not_a_Range => throw view_selection_invalid_range
  | a_Range range =>
      _pushRange this range ;;
      modify this (set_lastRangeBackward isBackward)
  end.

Definition _setFakeOptions (this : ref) (options : Arg) : M unit :=
  modify this
    (set_fake (truthy (prop_fake options))
              (if truthy (prop_fake options)
               then default "" (prop_label options)
               else "")).

Definition _setRanges (this : ref) (newRanges : Iterable Value)
    (isLastBackward : bool) : M unit :=
  modify this (set_ranges []) ;;
  for_of newRanges (λ range, _addRange this range false) ;;
  modify this (set_lastRangeBackward isLastBackward).

Definition _setFocus (this : ref) (itemOrPosition : Node + Position)
    (offset : Arg) : M unit :=
  let! a := anchor this in
  match a with
  | None => throw view_selection_setFocus_no_ranges
  | Some _ =>
      let! newFocus := Position_createAt itemOrPosition offset in
      let! f := focus this in
      match f with
      | None => throw TypeError
      | Some f =>
          if String.eqb (Position_compareWith newFocus f) "same" then ret tt
          else
            let! a := anchor this in
            match a with
            | None => throw TypeError
            | Some anchor =>
                modify this (λ s, set_ranges (take (length (_ranges s) - 1) (_ranges s)) s) ;;
                (if String.eqb (Position_compareWith newFocus anchor) "before"
                 then
                   let! range := new_Range newFocus anchor in
                   _addRange this (a_Range range) true
                 else
                   let! range := new_Range anchor newFocus in
                   _addRange this (a_Range range) false) ;;
                fire this "change"
            end
      end
  end.

(** What [_setTo] can be handed as [selectable], by the branch that takes
    it. *)
Inductive Selectable :=
  | null
  | a_Selection (selectable : ref)
  | single_Range (selectable : Range)
  | a_Position (selectable : Position)
  | a_Node (selectable : Node)
  | an_iterable (selectable : list Value)
  | not_selectable.

Definition _setTo (this : ref) (selectable : Selectable)
    (optionsOrPlaceOrOffset options : Arg) : M unit :=
  match selectable with
  | null =>
      _setRanges this (array []) false ;;
      _setFakeOptions this optionsOrPlaceOrOffset
  | a_Selection selectable =>
      let! other := read selectable in
      _setRanges this (as_values (getRanges selectable)) (isBackward other) ;;
      let! other := read selectable in
      _setFakeOptions this
        (an_object {| backward := None; fake := Some (isFake other);
                      label := Some (fakeSelectionLabel other) |})
  | single_Range selectable =>
      _setRanges this (array [a_Range selectable])
        (truthy (prop_backward optionsOrPlaceOrOffset)) ;;
      _setFakeOptions this optionsOrPlaceOrOffset
  | a_Position selectable =>
      let! range := new_Range selectable selectable in
      _setRanges this (array [a_Range range]) false ;;
      _setFakeOptions this optionsOrPlaceOrOffset
  | a_Node selectable =>
      let backward := truthy (prop_backward options) in
      let! range :=
        match optionsOrPlaceOrOffset with
        | undefined => throw view_selection_setTo_required_second_parameter
        | a_string "in" => Range_createIn selectable
        | a_string "on" => Range_createOn selectable
        | _ => Range_createCollapsedAt selectable optionsOrPlaceOrOffset
        end in
      _setRanges this (array [a_Range range]) backward ;;
      _setFakeOptions this options
  | an_iterable selectable =>
      _setRanges this (array selectable)
        (truthy (prop_backward optionsOrPlaceOrOffset)) ;;
      _setFakeOptions this optionsOrPlaceOrOffset
  | not_selectable => throw view_selection_setTo_not_selectable
  end ;;
  fire this "change".

(** [new Selection( selectable, optionsOrPlaceOrOffset, options )] *)
Definition new_Selection (selectable : Selectable)
    (optionsOrPlaceOrOffset options : Arg) : M ref :=
  let! this := alloc in
  write this {| _ranges := []; _lastRangeBackward := false;
                _isFake := false; _fakeSelectionLabel := "" |} ;;
  _setTo this selectable optionsOrPlaceOrOffset options ;;
  ret this.

(** ** Running the methods

    Worlds that a run ends in, each step written by what it did to the
    world it started from. *)

Definition allocated (k : nat) (w : World) : World :=
  {| selections := selections w; next_ref := k + next_ref w; fired := fired w |}.

Definition stored (this : ref) (s : Selection) (w : World) : World :=
  {| selections := <[this := s]> (selections w);
     next_ref := next_ref w; fired := fired w |}.

Definition notified (this : ref) (w : World) : World :=
  {| selections := selections w; next_ref := next_ref w;
     fired := fired w ++ [(this, "change")] |}.

(** the copy that [new Range] makes of contents [se] when the allocator
    stands at [n] *)
Definition range_new (n : ref) (se : Pos * Pos) : Range :=
  {| range_ref := S (S n);
     start := {| pos_ref := n; pos_at := se.1 |};
     end_ := {| pos_ref := S n; pos_at := se.2 |} |}.

(** the first stored range that [range] intersects, with its index *)
Definition first_intersecting (range : Range) (l : list Range) : option (nat * Range) :=
  list_find (λ storedRange, Range_isIntersecting range storedRange = true) l.

(** ** Reachable worlds

    What any program can bring about from a world without selections:
    construct selections, call [_setTo] and [_setFocus] on them with any
    arguments, and allocate objects of its own.  The world after a call
    that threw is kept as well: the selection it was called on is still
    there. *)

Definition blank : Selection :=
  {| _ranges := []; _lastRangeBackward := false;
     _isFake := false; _fakeSelectionLabel := "" |}.

Inductive reachable : World → Prop :=
  | reach_nothing n :
      reachable {| selections := ∅; next_ref := n; fired := [] |}
  | reach_new w selectable optionsOrPlaceOrOffset options :
      reachable w →
      reachable (new_Selection selectable optionsOrPlaceOrOffset options w).2
  | reach_setTo w this selectable optionsOrPlaceOrOffset options :
      reachable w →
      reachable (_setTo this selectable optionsOrPlaceOrOffset options w).2
  | reach_setFocus w this itemOrPosition offset :
      reachable w →
      reachable (_setFocus this itemOrPosition offset w).2
  | reach_allocated w k :
      reachable w → reachable (allocated k w).

(** ** Invariants *)

(** every stored range was checked against the ranges stored before it *)
Definition ordered_disjoint (l : list Range) : Prop :=
  ∀ i j ri rj, i < j → l !! i = Some ri → l !! j = Some rj →
    Range_isIntersecting rj ri = false.

(** I1 of the data model *)
Definition pairwise_disjoint (l : list Range) : Prop :=
  ∀ i j ri rj, i ≠ j → l !! i = Some ri → l !! j = Some rj →
    Range_isIntersecting ri rj = false.

(** I3 of the data model *)
Definition label_only_if_fake (s : Selection) : Prop :=
  _isFake s = false → _fakeSelectionLabel s = "".

(** the references held in a range come from the allocator *)
Definition range_below (n : ref) (r : Range) : Prop :=
  range_ref r < n ∧ pos_ref (start r) < n ∧ pos_ref (end_ r) < n.

Definition all_allocated (w : World) : Prop :=
  ∀ this s, selections w !! this = Some s →
    this < next_ref w ∧ Forall (range_below (next_ref w)) (_ranges s).

(** where [Position.createAt( itemOrPosition, offset )] points, if it
    returns *)
Definition target_of (itemOrPosition : Node + Position) (offset : Arg) : option Pos :=
  match itemOrPosition with
  | inr position => Some (pos_at position)
  | inl node => createAt_item node offset
  end.

(** the ends of the range stored last, by the direction flag *)
Definition anchor_at (s : Selection) (range : Range) : Pos :=
  pos_at (if _lastRangeBackward s then end_ range else start range).

Definition focus_at (s : Selection) (range : Range) : Pos :=
  pos_at (if _lastRangeBackward s then start range else end_ range).

(** the range that [_setFocus] builds from the anchor and the new focus,
    and the direction it is added with *)
Definition moved_backward (a t : Pos) : bool := String.eqb (compareWith t a) "before".

Definition moved_range (a t : Pos) : Pos * Pos :=
  if moved_backward a t then (t, a) else (a, t).

(** [p] is none of the position objects that the selections hold *)
Definition independent (w : World) (p : Position) : Prop :=
  ∀ this s r, selections w !! this = Some s → r ∈ _ranges s →
    pos_ref p ≠ pos_ref (start r) ∧ pos_ref p ≠ pos_ref (end_ r).

(** the ranges [rs], added in this order to a selection whose stored
    ranges are at [stored], each pass the check of [_pushRange] *)
Fixpoint accepts (stored : list (Pos * Pos)) (rs : list Range) : Prop :=
  match rs with
  | [] => True
  | r :: rs =>
      (∀ o, o ∈ stored → isIntersecting (range_at r) o = false)
      ∧ accepts (stored ++ [range_at r]) rs
  end.

(** a step of an iterator that allocates [k] objects and yields a Range
    at the ends of [r] *)
Definition yields (k : nat) (next : M Value) (r : Range) : Prop :=
  ∀ w, ∃ r', next w = (Return (a_Range r'), allocated k w) ∧ range_at r' = range_at r.

(** ** Equality of selections, in words *)

Definition same_fake (a b : Selection) : Prop :=
  isFake a = isFake b
  ∧ (isFake a = true → fakeSelectionLabel a = fakeSelectionLabel b).

(** the anchors are at the same place and so are the focuses (nothing to
    compare when there is no range) *)
Definition same_anchor_and_focus (a b : Selection) : Prop :=
  ∀ ra rb, last (_ranges a) = Some ra → last (_ranges b) = Some rb →
    anchor_at a ra = anchor_at b rb ∧ focus_at a ra = focus_at b rb.

(** what [isEqual] checks on the ranges: each range of [a] has a range of
    [b] at the same ends *)
Definition ranges_found_in (a b : Selection) : Prop :=
  ∀ r, r ∈ _ranges a → ∃ r', r' ∈ _ranges b ∧ range_at r = range_at r'.

(** what the specification asks of the ranges: the same ends, as
    multisets *)
Definition ranges_match_as_multisets (a b : Selection) : Prop :=
  range_at <$> _ranges a ≡ₚ range_at <$> _ranges b.

(** equality as [isEqual] decides it *)
Definition equal_as_checked (a b : Selection) : Prop :=
  same_fake a b ∧ rangeCount a = rangeCount b
  ∧ same_anchor_and_focus a b ∧ ranges_found_in a b.

(** equality as the specification words it *)
Definition equal_as_specified (a b : Selection) : Prop :=
  same_fake a b ∧ rangeCount a = rangeCount b
  ∧ same_anchor_and_focus a b ∧ ranges_match_as_multisets a b.

(** the test of the inner loop, on the stored ranges *)
Definition trims_alike (r r' : Range) : bool :=
  bool_decide (getTrimmed (range_at r) = getTrimmed (range_at r')).

(** [c] holds what a copy of [s] should: ranges at the same ends in the
    same order, the same direction, fake flag and label, anchor and focus
    at the same places *)
Definition copy_of (s c : Selection) : Prop :=
  range_at <$> _ranges c = range_at <$> _ranges s
  ∧ isBackward c = isBackward s
  ∧ isFake c = isFake s
  ∧ fakeSelectionLabel c = fakeSelectionLabel s
  ∧ same_anchor_and_focus c s.

(** in [w'] the selection at [t] is a copy of the selection [s] at
    [other], the rest of [w] is as it was, and [isEqual] says so both ways *)
Definition copied_to (w : World) (other : ref) (s : Selection) (t : ref)
    (w' : World) : Prop :=
  ∃ c, selections w' = <[t := c]> (selections w)
       ∧ copy_of s c
       ∧ (isEqual t other w').1 = Return true
       ∧ (isEqual other t w').1 = Return true.

(** ** Similarity of selections, in words *)

(** each range of [a], trimmed, has a range of [b] that trims to the same
    ends *)
Definition trimmed_found_in (a b : Selection) : Prop :=
  ∀ r, r ∈ _ranges a →
    ∃ r', r' ∈ _ranges b ∧ getTrimmed (range_at r) = getTrimmed (range_at r').

Definition similar (a b : Selection) : Prop :=
  isBackward a = isBackward b ∧ rangeCount a = rangeCount b ∧ trimmed_found_in a b.

(** a method keeps a property of worlds, whether it returns or throws *)
Definition preserves {A} (I : World → Prop) (m : M A) : Prop :=
  ∀ w, I w → I (m w).2.

(** an iterable whose iterator and items keep [I] *)
Definition iterable_preserves {A} (I : World → Prop) (it : Iterable A) : Prop :=
  ∀ w, I w →
    I (it w).2 ∧ ∀ items, (it w).1 = Return items → Forall (preserves I) items.

(** a method only allocates *)
Definition allocates {A} (m : M A) : Prop :=
  ∀ w, ∃ k, (m w).2 = allocated k w.

(** ** The queries on the first and last range *)

(** Modelled from the spec: [Position#isBefore] and [Position#isAfter]
    of ./position, the three-way comparison read as a test. *)
Definition Position_isBefore (p q : Position) : bool :=
  String.eqb (Position_compareWith p q) "before".

Definition Position_isAfter (p q : Position) : bool :=
  String.eqb (Position_compareWith p q) "after".

(** the loop of [getFirstRange]: [first] after the ranges of [l] *)
Fixpoint first_of (first : option Range) (l : list Range) : option Range :=
  match l with
  | [] => first
  | range :: rest =>
      first_of
        (match first with
         | None => Some range
         | Some f =>
             if Position_isBefore (start range) (start f) then Some range else first
         end) rest
  end.

(** the loop of [getLastRange] *)
Fixpoint last_of (last : option Range) (l : list Range) : option Range :=
  match l with
  | [] => last
  | range :: rest =>
      last_of
        (match last with
         | None => Some range
         | Some f =>
             if Position_isAfter (end_ range) (end_ f) then Some range else last
         end) rest
  end.

Definition getFirstRange (this : ref) : M (option Range) :=
  let! s := read this in
  match first_of None (_ranges s) with
  | Some first => let! copy := Range_createFromRange first in ret (Some copy)
  | None => ret None
  end.

Definition getLastRange (this : ref) : M (option Range) :=
  let! s := read this in
  match last_of None (_ranges s) with
  | Some last => let! copy := Range_createFromRange last in ret (Some copy)
  | None => ret None
  end.

Definition getFirstPosition (this : ref) : M (option Position) :=
  let! firstRange := getFirstRange this in
  match firstRange with
  | Some firstRange =>
      let! copy := Position_createFromPosition (start firstRange) in ret (Some copy)
  | None => ret None
  end.

Definition getLastPosition (this : ref) : M (option Position) :=
  let! lastRange := getLastRange this in
  match lastRange with
  | Some lastRange =>
      let! copy := Position_createFromPosition (end_ lastRange) in ret (Some copy)
  | None => ret None
  end.

(** JavaScript's [Array.from( iterable )]: the iterator is run to its end
    and what it yields is kept, in order. *)
Fixpoint collect {A} (items : list (M A)) : M (list A) :=
  match items with
  | [] => ret []
  | next :: rest => let! x := next in let! xs := collect rest in ret (x :: xs)
  end.

Definition Array_from {A} (it : Iterable A) : M (list A) :=
  let! items := it in collect items.

(** ** What a method may change *)

(** every run of [m] takes a world to one that [R] relates to it *)
Definition steps {A} (R : World → World → Prop) (m : M A) : Prop :=
  ∀ w, R w (m w).2.

(** an iterable whose iterator and items step by [R] *)
Definition iterable_steps {A} (R : World → World → Prop) (it : Iterable A) : Prop :=
  ∀ w, R w (it w).2 ∧ ∀ items, (it w).1 = Return items → Forall (steps R) items.

(** nothing was fired and no selection but [this] was written *)
Definition within (this : ref) (w w' : World) : Prop :=
  fired w' = fired w
  ∧ ∀ o, o ≠ this → selections w' !! o = selections w !! o.

(** [this] is still a selection if it was, with the fake flag and label
    it had *)
Definition keeps_fake (this : ref) (w w' : World) : Prop :=
  ∀ s, selections w !! this = Some s →
    ∃ s', selections w' !! this = Some s'
          ∧ isFake s' = isFake s ∧ fakeSelectionLabel s' = fakeSelectionLabel s.

(** both *)
Definition within_keeping_fake (this : ref) (w w' : World) : Prop :=
  within this w w' ∧ keeps_fake this w w'.

(** a write to a selection that leaves its fake flag and label *)
Definition leaves_fake (f : Selection → Selection) : Prop :=
  ∀ s, isFake (f s) = isFake s ∧ fakeSelectionLabel (f s) = fakeSelectionLabel s.

(** a run of [m] steps by [R], but for a change that it may fire on
    [this] as the last thing before it returns *)
Definition outcome (R : World → World → Prop) (this : ref) (m : M unit) : Prop :=
  ∀ w, ∃ w1, R w w1
    ∧ ((∃ e, m w = (Throw e, w1)) ∨ m w = (Return tt, w1)
       ∨ m w = (Return tt, notified this w1)).

(** the references of the objects of a range: its own and those of its
    two positions *)
Definition refs_of (r : Range) : list ref :=
  [range_ref r; pos_ref (start r); pos_ref (end_ r)].

(** all three were allocated from [n] on *)
Definition allocated_from (n : ref) (r : Range) : Prop :=
  n ≤ range_ref r ∧ n ≤ pos_ref (start r) ∧ n ≤ pos_ref (end_ r).

(** where [_setTo] puts the range for an item, by its second parameter,
    if the factory that it calls returns *)
Definition placed (node : Node) (place : Arg) : option (Pos * Pos) :=
  match place with
  | undefined => None
  | a_string "in" => createIn_item node
  | a_string "on" => createOn_item node
  | _ => (λ p, (p, p)) <$> createAt_item node place
  end.

(** no object of a stored range is an object of a range stored in another
    place, of the same selection or of another *)
Definition unshared (w : World) : Prop :=
  ∀ o1 s1 i r1 o2 s2 j r2,
    selections w !! o1 = Some s1 → _ranges s1 !! i = Some r1 →
    selections w !! o2 = Some s2 → _ranges s2 !! j = Some r2 →
    (o1, i) ≠ (o2, j) → ∀ x, x ∈ refs_of r1 → x ∉ refs_of r2.

End selection.

Arguments Return {_ _} _.
Arguments Throw {_ _} _.

Notation "'let!' x ':=' m 'in' k" := (bind m (λ x, k))
  (at level 10, x pattern, m at level 100, k at level 200).
Notation "m ';;' k" := (bind m (λ _, k))
  (at level 100, k at level 200, right associativity).

(** ** The tree around a position *)

(** Modelled from the spec: [Position#nodeAfter], [Position#nodeBefore]
    and [Position#editableElement] of ./position, [instanceof Element] of
    ./element, and the identity of nodes, which [==] compares; none is
    part of selection.js, and they are taken as a parameter. *)
Class Tree `{Collaborators} := {
  nodeAfter : Pos → option Node;
  nodeBefore : Pos → option Node;
  isElement : Node → bool;
  Node_eq_dec :: EqDecision Node;
  editableElement_at : Pos → option Node
}.

Section tree.
Context `{Tree}.

Definition getSelectedElement (this : ref) : M (option Node) :=
  let! s := read this in
  if negb (rangeCount s =? 1) then ret None
  else
    let! range := getFirstRange this in
    match range with
    | None => throw TypeError
    | Some range =>
        let nodeAfterStart := nodeAfter (pos_at (start range)) in
        let nodeBeforeEnd := nodeBefore (pos_at (end_ range)) in
        match nodeAfterStart with
        | Some node =>
            if isElement node && bool_decide (nodeAfterStart = nodeBeforeEnd)
            then ret nodeAfterStart
            else ret None
        | None => ret None
        end
    end.

Definition editableElement (this : ref) : M (option Node) :=
  let! a := anchor this in
  match a with
  | Some _ =>
      let! a := anchor this in
      match a with
      | Some a => ret (editableElement_at (pos_at a))
      | None => throw TypeError
      end
  | None => ret None
  end.

End tree.

(** ** A document of one text node *)
Module Text.

(** Modelled from the spec: an instance of the collaborators, to run the
    methods on concrete selections.  Positions are offsets in a single
    text node and are compared as such; two ranges intersect when each
    starts before the other ends, so a collapsed range intersects nothing;
    trimming changes nothing in text; items are child indices. *)
#[export] Instance text : Collaborators := {|
  Pos := nat;
  Node := nat;
  compareWith p q :=
    if (p <? q)%nat then "before" else if (p =? q)%nat then "same" else "after";
  isIntersecting r o := (r.1 <? o.2)%nat && (o.1 <? r.2)%nat;
  getTrimmed r := r;
  createAt_item n o :=
    match o with a_number z => Some (Z.to_nat z) | _ => None end;
  createIn_item n := Some (0, 10)%nat;
  createOn_item n := Some (n, S n)
|}.

(** objects made by the caller, with references of their own *)
Definition P (n : nat) : Position := {| pos_ref := 1000 + n; pos_at := n |}.

Definition R (a b : nat) : Range :=
  {| range_ref := 2000 + 10 * a + b; start := P a; end_ := P b |}.

Definition nothing : World := {| selections := ∅; next_ref := 0; fired := [] |}.

(** the copy that a selection stores of a range from [a] to [b], made
    with the allocator at [n] *)
Definition copy (n a b : nat) : Range := range_new (H := text) n (a, b).

(** a selection that is not fake *)
Definition plain (l : list Range) (b : bool) : Selection :=
  {| _ranges := l; _lastRangeBackward := b; _isFake := false;
     _fakeSelectionLabel := "" |}.

Definition ranges (l : list Range) : Selectable := an_iterable (a_Range <$> l).

(** [new Selection( new Range( 0, 2 ) )], then a second selection *)
Definition one_range : World :=
  (new_Selection (single_Range (R 0 2)) undefined undefined nothing).2.

Definition two_ranges : World :=
  (new_Selection (ranges [R 0 2; R 3 5]) undefined undefined nothing).2.

Definition two_selections : World :=
  (new_Selection (ranges [R 0 2; R 3 5]) undefined undefined two_ranges).2.

(** two selections of collapsed ranges, the first with the same range
    twice *)
Definition duplicate : World :=
  (new_Selection (ranges [R 1 1; R 1 1]) undefined undefined nothing).2.

Definition duplicates : World :=
  (new_Selection (ranges [R 3 3; R 1 1]) undefined undefined duplicate).2.

(** [new Selection( [], { backward: true } )], then [new Selection()] *)
Definition backward_option : Arg :=
  an_object {| backward := Some true; fake := None; label := None |}.

Definition empty_backward : World :=
  (new_Selection (ranges []) backward_option undefined nothing).2.

Definition empties : World :=
  (new_Selection null undefined undefined empty_backward).2.

(** [new Selection( new Range( 2, 4 ) )]: anchor at 2, focus at 4 *)
Definition anchored_at_2 : World :=
  (new_Selection (single_Range (R 2 4)) undefined undefined nothing).2.

(** [{ fake: false, label: 'x' }] and [{ fake: true, label: 'x' }] *)
Definition x_label : Arg :=
  an_object {| backward := None; fake := Some false; label := Some "x" |}.

Definition fake_x : Arg :=
  an_object {| backward := None; fake := Some true; label := Some "x" |}.

(** [new Selection( null, { fake: true, label: 'x' } )], then
    [new Selection()] *)
Definition fake_empty : World := (new_Selection null fake_x undefined nothing).2.

Definition fake_and_plain : World :=
  (new_Selection null undefined undefined fake_empty).2.

Definition fake_selection : Selection :=
  {| _ranges := []; _lastRangeBackward := false; _isFake := true;
     _fakeSelectionLabel := "x" |}.

(** [new Selection( new Range( 2, 4 ), { fake: true, label: 'x' } )] *)
Definition fake_range : World :=
  (new_Selection (single_Range (R 2 4)) fake_x undefined nothing).2.

(** [new Selection( new Range( 0, 2 ), { backward: true } )] *)
Definition backward_range : World :=
  (new_Selection (single_Range (R 0 2)) backward_option undefined nothing).2.

(** [new Selection( new Range( 2, 3 ) )]: the range holds child 2 alone *)
Definition around_child_2 : World :=
  (new_Selection (single_Range (R 2 3)) undefined undefined nothing).2.

(** the two selections, and a third constructed from the first *)
Definition three_selections : World :=
  (new_Selection (a_Selection 0) undefined undefined two_selections).2.

(** the two selections, the second then set to the first *)
Definition second_set_to_first : World :=
  (_setTo 7 (a_Selection 0) undefined undefined two_selections).2.

(** Modelled from the spec: the tree of the sample document, as flat as
    its positions.  The node after offset [p] is child [p], the node
    before it child [p - 1], if any; the children at even indices are
    elements, the others text; every position is in the one editable
    root, node 100. *)
#[export] Instance text_tree : Tree := {|
  nodeAfter p := Some p;
  nodeBefore p := match p with O => None | S n => Some n end;
  isElement n := Nat.even n;
  editableElement_at p := Some 100
|}.

End Text.

(** * Properties *)

Section properties.
Context `{Collaborators}.

Lemma range_at_new n se : range_at (range_new n se) = se.
Proof. by destruct se. Qed.

Lemma allocated_0 w : allocated 0 w = w.
Proof. by destruct w. Qed.

Lemma allocated_allocated j k w :
  allocated j (allocated k w) = allocated (j + k) w.
Proof. unfold allocated; simpl. f_equal. lia. Qed.

Lemma stored_stored this s1 s2 w :
  stored this s2 (stored this s1 w) = stored this s2 w.
Proof. unfold stored; simpl. by rewrite insert_insert_eq. Qed.

Lemma stored_same this s w :
  selections w !! this = Some s → stored this s w = w.
Proof. intros Hs. destruct w; unfold stored; simpl in *. by rewrite insert_id. Qed.

Lemma bind_ret {A B} (a : A) (k : A → M B) w : bind (ret a) k w = k a w.
Proof. done. Qed.

Lemma bind_Return {A B} (m : M A) (k : A → M B) a w w' :
  m w = (Return a, w') → bind m k w = k a w'.
Proof. intros Hm. unfold bind. by rewrite Hm. Qed.

Lemma bind_Throw {A B} (m : M A) (k : A → M B) e w w' :
  m w = (Throw e, w') → bind m k w = (Throw e, w').
Proof. intros Hm. unfold bind. by rewrite Hm. Qed.

(** run the first method of a sequence by its equation *)
Ltac returns E := rewrite (bind_Return _ _ _ _ _ E); cbv beta.

Lemma for_of_array {A} (l : list A) body w :
  for_of (array l) body w = for_each (ret <$> l) body w.
Proof. done. Qed.

Lemma read_run this s w :
  selections w !! this = Some s → read this w = (Return s, w).
Proof. intros Hs. unfold read. by rewrite Hs. Qed.

Lemma modify_run this s f w :
  selections w !! this = Some s →
  modify this f w = (Return tt, stored this (f s) w).
Proof. intros Hs. unfold modify, bind. by rewrite (read_run _ _ _ Hs). Qed.

Lemma new_Position_run p w :
  new_Position p w = (Return {| pos_ref := next_ref w; pos_at := p |}, allocated 1 w).
Proof. done. Qed.

Lemma new_Range_run s e w :
  new_Range s e w = (Return (range_new (next_ref w) (pos_at s, pos_at e)), allocated 3 w).
Proof. done. Qed.

Lemma Range_of_run se w :
  Range_of se w = (Return (range_new (next_ref w) se), allocated 3 w).
Proof. done. Qed.

Lemma Range_createFromRange_run r w :
  Range_createFromRange r w
  = (Return (range_new (next_ref w) (range_at r)), allocated 3 w).
Proof. done. Qed.

Lemma Range_isIntersecting_at r r' o o' :
  range_at r = range_at r' → range_at o = range_at o' →
  Range_isIntersecting r o = Range_isIntersecting r' o'.
Proof. unfold Range_isIntersecting. by intros -> ->. Qed.

(** The loop of [_pushRange] stops at the first stored range that
    intersects. *)
Lemma intersecting_loop_run range l w :
  for_of (array l)
    (λ storedRange,
       if Range_isIntersecting range storedRange
       then throw (view_selection_range_intersects range storedRange)
       else ret tt) w
  = match first_intersecting range l with
    | Some (_, storedRange) =>
        (Throw (view_selection_range_intersects range storedRange), w)
    | None => (Return tt, w)
    end.
Proof.
  rewrite for_of_array. unfold first_intersecting.
  induction l as [|st l IH]; simpl; [done|].
  rewrite bind_ret. case_decide as Hst.
  - by rewrite Hst.
  - apply not_true_is_false in Hst. rewrite Hst, bind_ret.
    etrans; [exact IH|]. by destruct (list_find _ l) as [[??]|].
Qed.

Lemma _pushRange_run this s range w :
  selections w !! this = Some s →
  _pushRange this range w
  = match first_intersecting range (_ranges s) with
    | Some (_, storedRange) =>
        (Throw (view_selection_range_intersects range storedRange), w)
    | None =>
        (Return tt,
         stored this
           (set_ranges (_ranges s ++ [range_new (next_ref w) (range_at range)]) s)
           (allocated 3 w))
    end.
Proof.
  intros Hs. unfold _pushRange. unfold bind at 1. rewrite (read_run _ _ _ Hs).
  unfold bind at 1. rewrite intersecting_loop_run.
  destruct (first_intersecting _ _) as [[??]|]; [done|].
  unfold bind. rewrite Range_createFromRange_run.
  by rewrite (modify_run this s).
Qed.

Lemma _addRange_run this s range isBackward w :
  selections w !! this = Some s →
  _addRange this (a_Range range) isBackward w
  = match first_intersecting range (_ranges s) with
    | Some (_, storedRange) =>
        (Throw (view_selection_range_intersects range storedRange), w)
    | None =>
        (Return tt,
         stored this
           (set_lastRangeBackward isBackward
              (set_ranges (_ranges s ++ [range_new (next_ref w) (range_at range)]) s))
           (allocated 3 w))
    end.
Proof.
  intros Hs. unfold _addRange, bind. rewrite (_pushRange_run _ _ _ _ Hs).
  destruct (first_intersecting _ _) as [[??]|]; [done|].
  erewrite modify_run; [|apply lookup_insert_eq].
  by rewrite stored_stored.
Qed.

Lemma first_intersecting_Some range l i storedRange :
  first_intersecting range l = Some (i, storedRange) ↔
  l !! i = Some storedRange
  ∧ Range_isIntersecting range storedRange = true
  ∧ ∀ j earlier, l !! j = Some earlier → j < i →
      Range_isIntersecting range earlier = false.
Proof.
  unfold first_intersecting. rewrite list_find_Some.
  split; intros (? & ? & Hfirst); repeat split; try done.
  - intros j r' ??. apply not_true_is_false. eauto.
  - intros j r' ??. rewrite (Hfirst j r'); done.
Qed.

Lemma first_intersecting_None range l :
  first_intersecting range l = None ↔
  ∀ storedRange, storedRange ∈ l → Range_isIntersecting range storedRange = false.
Proof.
  unfold first_intersecting. rewrite list_find_None, Forall_forall.
  split; intros Hl r Hr; specialize (Hl r Hr).
  - by apply not_true_is_false.
  - by rewrite Hl.
Qed.

(** C2. When [range] intersects a stored range, [_addRange] throws
    view-selection-range-intersects with [range] as addedRange and, as
    intersectingRange, the first stored range in storage order that
    [range] intersects; the world it leaves is the world it was called
    in: the stored ranges and the direction flag are as before. *)
Theorem addRange_intersecting_throws this s range isBackward w :
  selections w !! this = Some s →
  (∃ storedRange,
      storedRange ∈ _ranges s ∧ Range_isIntersecting range storedRange = true) →
  ∃ i storedRange,
    _ranges s !! i = Some storedRange
    ∧ Range_isIntersecting range storedRange = true
    ∧ (∀ j earlier, _ranges s !! j = Some earlier → j < i →
         Range_isIntersecting range earlier = false)
    ∧ _addRange this (a_Range range) isBackward w
      = (Throw (view_selection_range_intersects range storedRange), w).
Proof.
  intros Hs (st & Hin & Hst).
  rewrite (_addRange_run _ _ _ _ _ Hs).
  destruct (first_intersecting range (_ranges s)) as [[i r]|] eqn:Hfind.
  - apply first_intersecting_Some in Hfind as (? & ? & ?). by exists i, r.
  - rewrite first_intersecting_None in Hfind. by rewrite (Hfind st Hin) in Hst.
Qed.

(** ** Methods that only allocate *)

Lemma allocates_ret {A} (a : A) : allocates (ret a).
Proof. intros w. exists 0. by rewrite allocated_0. Qed.

Lemma allocates_throw {A} e : allocates (throw (A := A) e).
Proof. intros w. exists 0. by rewrite allocated_0. Qed.

Lemma allocates_alloc : allocates alloc.
Proof. intros w. by exists 1. Qed.

Lemma allocates_read this : allocates (read this).
Proof.
  intros w. exists 0. rewrite allocated_0. unfold read.
  by destruct (selections w !! this).
Qed.

Lemma allocates_bind {A B} (m : M A) (k : A → M B) :
  allocates m → (∀ a, allocates (k a)) → allocates (bind m k).
Proof.
  intros Hm Hk w. unfold bind. destruct (Hm w) as [j Hj].
  destruct (m w) as [[a|e] w1]; simpl in Hj; subst w1.
  - destruct (Hk a (allocated j w)) as [i Hi]. exists (i + j).
    by rewrite Hi, allocated_allocated.
  - by exists j.
Qed.

Lemma allocates_from_option {A} (o : option A) : allocates (from_option o).
Proof. destruct o; [apply allocates_ret | apply allocates_throw]. Qed.

Create HintDb allocates.
#[local] Hint Resolve allocates_ret allocates_throw allocates_alloc
  allocates_read allocates_from_option : allocates.
#[local] Hint Extern 2 (allocates (bind _ _)) =>
  apply allocates_bind; [|intros ?] : allocates.
#[local] Hint Extern 2 (allocates (match ?x with _ => _ end)) =>
  destruct x : allocates.

Lemma allocates_new_Position p : allocates (new_Position p).
Proof. unfold new_Position. auto with allocates. Qed.
#[local] Hint Resolve allocates_new_Position : allocates.

Lemma allocates_new_Range s e : allocates (new_Range s e).
Proof. unfold new_Range, Position_createFromPosition. auto with allocates. Qed.
#[local] Hint Resolve allocates_new_Range : allocates.

Lemma allocates_Range_of se : allocates (Range_of se).
Proof. unfold Range_of. auto with allocates. Qed.
#[local] Hint Resolve allocates_Range_of : allocates.

Lemma allocates_Position_createAt itemOrPosition offset :
  allocates (Position_createAt itemOrPosition offset).
Proof.
  unfold Position_createAt, Position_createFromPosition. auto with allocates.
Qed.
#[local] Hint Resolve allocates_Position_createAt : allocates.

Lemma allocates_anchor this : allocates (anchor this).
Proof. unfold anchor, Position_createFromPosition. auto 7 with allocates. Qed.

Lemma allocates_focus this : allocates (focus this).
Proof. unfold focus, Position_createFromPosition. auto 7 with allocates. Qed.
#[local] Hint Resolve allocates_anchor allocates_focus : allocates.

Lemma read_missing this w :
  selections w !! this = None → read this w = (Throw TypeError, w).
Proof. intros Hs. unfold read. by rewrite Hs. Qed.

Lemma new_Selection_run selectable optionsOrPlaceOrOffset options w :
  new_Selection selectable optionsOrPlaceOrOffset options w
  = bind (_setTo (next_ref w) selectable optionsOrPlaceOrOffset options)
         (λ _, ret (next_ref w))
         (stored (next_ref w) blank (allocated 1 w)).
Proof. done. Qed.

(** ** Properties kept by every method

    A property of worlds that survives each elementary change a method of
    Selection makes is kept by the methods, and so holds in every
    reachable world. *)
Section invariant.
Variable I : World → Prop.
Hypothesis I_nothing : ∀ n, I {| selections := ∅; next_ref := n; fired := [] |}.
Hypothesis I_allocated : ∀ k w, I w → I (allocated k w).
Hypothesis I_notified : ∀ this w, I w → I (notified this w).
Hypothesis I_constructed : ∀ w, I w → I (stored (next_ref w) blank (allocated 1 w)).
Hypothesis I_cleared : ∀ this s w,
  I w → selections w !! this = Some s → I (stored this (set_ranges [] s) w).
Hypothesis I_popped : ∀ this s w,
  I w → selections w !! this = Some s →
  I (stored this (set_ranges (take (length (_ranges s) - 1) (_ranges s)) s) w).
Hypothesis I_pushed : ∀ this s range w,
  I w → selections w !! this = Some s →
  first_intersecting range (_ranges s) = None →
  I (stored this
       (set_ranges (_ranges s ++ [range_new (next_ref w) (range_at range)]) s)
       (allocated 3 w)).
Hypothesis I_direction : ∀ this s b w,
  I w → selections w !! this = Some s →
  I (stored this (set_lastRangeBackward b s) w).
Hypothesis I_fake : ∀ this s b l w,
  I w → selections w !! this = Some s → (b = false → l = "") →
  I (stored this (set_fake b l s) w).

Lemma preserves_allocates {A} (m : M A) : allocates m → preserves I m.
Proof. intros Hm w Hw. destruct (Hm w) as [k ->]. by apply I_allocated. Qed.

Lemma preserves_bind {A B} (m : M A) (k : A → M B) :
  preserves I m → (∀ a, preserves I (k a)) → preserves I (bind m k).
Proof.
  intros Hm Hk w Hw. unfold bind. specialize (Hm w Hw).
  destruct (m w) as [[a|e] w1]; simpl in *; [by apply Hk | done].
Qed.

Lemma preserves_modify this f :
  (∀ s w, I w → selections w !! this = Some s → I (stored this (f s) w)) →
  preserves I (modify this f).
Proof.
  intros Hf w Hw. destruct (selections w !! this) as [s|] eqn:Hs.
  - rewrite (modify_run _ _ _ _ Hs). by apply Hf.
  - unfold modify. by rewrite (bind_Throw _ _ _ _ _ (read_missing _ _ Hs)).
Qed.

Lemma preserves_fire this : preserves I (fire this "change").
Proof. intros w Hw. by apply I_notified. Qed.

Lemma preserves_for_each {A} (items : list (M A)) body :
  Forall (preserves I) items → (∀ x, preserves I (body x)) →
  preserves I (for_each items body).
Proof.
  intros Hitems Hbody. induction Hitems; simpl.
  - by apply preserves_allocates, allocates_ret.
  - repeat (apply preserves_bind; [|intros ?]); auto.
Qed.

Lemma preserves_for_of {A} (it : Iterable A) body :
  iterable_preserves I it → (∀ x, preserves I (body x)) →
  preserves I (for_of it body).
Proof.
  intros Hit Hbody w Hw. unfold for_of, bind. destruct (Hit w Hw) as [Hw1 Hitems].
  destruct (it w) as [[items|e] w1]; simpl in *; [|done].
  by apply preserves_for_each; auto.
Qed.

Lemma iterable_preserves_array {A} (l : list A) : iterable_preserves I (array l).
Proof.
  intros w Hw. split; [done|]. intros items [= <-].
  apply Forall_fmap, Forall_true. intros x. apply preserves_allocates, allocates_ret.
Qed.

Lemma iterable_preserves_getRanges this :
  iterable_preserves I (as_values (getRanges this)).
Proof.
  intros w Hw. unfold as_values, getRanges, bind, read.
  destruct (selections w !! this) as [s|]; simpl; [|done].
  split; [done|]. intros items [= <-].
  apply Forall_fmap, Forall_fmap, Forall_true. intros r. cbv beta.
  apply preserves_allocates, allocates_bind; [apply allocates_new_Range|].
  intros c. apply allocates_ret.
Qed.

Lemma preserves__pushRange this range : preserves I (_pushRange this range).
Proof.
  intros w Hw. destruct (selections w !! this) as [s|] eqn:Hs.
  - rewrite (_pushRange_run _ _ _ _ Hs).
    destruct (first_intersecting range (_ranges s)) as [[??]|] eqn:Hfind; [done|].
    by apply I_pushed.
  - unfold _pushRange. by rewrite (bind_Throw _ _ _ _ _ (read_missing _ _ Hs)).
Qed.

Lemma preserves__addRange this range isBackward :
  preserves I (_addRange this range isBackward).
Proof.
  destruct range as [range|]; simpl.
  - apply preserves_bind; [apply preserves__pushRange|intros _].
    apply preserves_modify. auto.
  - by apply preserves_allocates, allocates_throw.
Qed.

Lemma preserves__setRanges this newRanges isLastBackward :
  iterable_preserves I newRanges →
  preserves I (_setRanges this newRanges isLastBackward).
Proof.
  intros Hit. unfold _setRanges.
  apply preserves_bind; [apply preserves_modify; auto|intros _].
  apply preserves_bind; [|intros _; apply preserves_modify; auto].
  apply preserves_for_of; [done|]. intros x. apply preserves__addRange.
Qed.

Lemma preserves__setFakeOptions this options :
  preserves I (_setFakeOptions this options).
Proof.
  apply preserves_modify. intros s w Hw Hs. apply I_fake; [done..|].
  by intros ->.
Qed.

Lemma preserves__setFocus this itemOrPosition offset :
  preserves I (_setFocus this itemOrPosition offset).
Proof.
  unfold _setFocus.
  apply preserves_bind; [apply preserves_allocates, allocates_anchor|].
  intros [_|]; [|apply preserves_allocates, allocates_throw].
  apply preserves_bind; [apply preserves_allocates, allocates_Position_createAt|].
  intros newFocus.
  apply preserves_bind; [apply preserves_allocates, allocates_focus|].
  intros [f|]; [|apply preserves_allocates, allocates_throw].
  destruct (String.eqb _ "same"); [apply preserves_allocates, allocates_ret|].
  apply preserves_bind; [apply preserves_allocates, allocates_anchor|].
  intros [a|]; [|apply preserves_allocates, allocates_throw].
  apply preserves_bind; [apply preserves_modify; auto|intros _].
  apply preserves_bind; [|intros _; apply preserves_fire].
  destruct (String.eqb _ "before");
    (apply preserves_bind;
      [apply preserves_allocates, allocates_new_Range
      |intros range; apply preserves__addRange]).
Qed.

Lemma preserves__setTo this selectable optionsOrPlaceOrOffset options :
  preserves I (_setTo this selectable optionsOrPlaceOrOffset options).
Proof.
  unfold _setTo. apply preserves_bind; [|intros _; apply preserves_fire].
  destruct selectable as [|other|range|position|node|l|].
  - apply preserves_bind; [|intros _; apply preserves__setFakeOptions].
    apply preserves__setRanges, iterable_preserves_array.
  - apply preserves_bind; [apply preserves_allocates, allocates_read|intros s].
    apply preserves_bind;
      [apply preserves__setRanges, iterable_preserves_getRanges|intros _].
    apply preserves_bind; [apply preserves_allocates, allocates_read|intros s'].
    apply preserves__setFakeOptions.
  - apply preserves_bind; [|intros _; apply preserves__setFakeOptions].
    apply preserves__setRanges, iterable_preserves_array.
  - apply preserves_bind; [apply preserves_allocates, allocates_new_Range|].
    intros range.
    apply preserves_bind; [|intros _; apply preserves__setFakeOptions].
    apply preserves__setRanges, iterable_preserves_array.
  - cbv zeta. apply preserves_bind.
    + apply preserves_allocates.
      unfold Range_createIn, Range_createOn, Range_createCollapsedAt.
      repeat case_match; auto 6 with allocates.
    + intros range.
      apply preserves_bind; [|intros _; apply preserves__setFakeOptions].
      apply preserves__setRanges, iterable_preserves_array.
  - apply preserves_bind; [|intros _; apply preserves__setFakeOptions].
    apply preserves__setRanges, iterable_preserves_array.
  - apply preserves_allocates, allocates_throw.
Qed.

Lemma preserves_new_Selection selectable optionsOrPlaceOrOffset options :
  preserves I (new_Selection selectable optionsOrPlaceOrOffset options).
Proof.
  intros w Hw. rewrite new_Selection_run.
  apply preserves_bind; [apply preserves__setTo| |by apply I_constructed].
  intros _. apply preserves_allocates, allocates_ret.
Qed.

Lemma reachable_invariant w : reachable w → I w.
Proof.
  induction 1 as [n|w ????|w ?????|w ????|w k]; auto.
  - by apply preserves_new_Selection.
  - by apply preserves__setTo.
  - by apply preserves__setFocus.
Qed.

End invariant.

(** The same for a property of one selection's fields. *)
Section selection_invariant.
Variable J : Selection → Prop.
Hypothesis J_blank : J blank.
Hypothesis J_cleared : ∀ s, J s → J (set_ranges [] s).
Hypothesis J_popped : ∀ s,
  J s → J (set_ranges (take (length (_ranges s) - 1) (_ranges s)) s).
Hypothesis J_pushed : ∀ s range n,
  J s → first_intersecting range (_ranges s) = None →
  J (set_ranges (_ranges s ++ [range_new n (range_at range)]) s).
Hypothesis J_direction : ∀ s b, J s → J (set_lastRangeBackward b s).
Hypothesis J_fake : ∀ s b l, J s → (b = false → l = "") → J (set_fake b l s).

Lemma stored_invariant this s s' w :
  (∀ o so, selections w !! o = Some so → J so) →
  selections w !! this = Some s → (J s → J s') →
  ∀ o so, selections (stored this s' w) !! o = Some so → J so.
Proof.
  intros Hw Hs Hs' o so. simpl. destruct (decide (this = o)) as [->|Hne].
  - rewrite lookup_insert_eq. intros [= <-]. eauto.
  - rewrite lookup_insert_ne by done. exact (Hw o so).
Qed.

Lemma reachable_selection_invariant w this s :
  reachable w → selections w !! this = Some s → J s.
Proof.
  intros Hw. revert this s.
  apply (reachable_invariant (λ w, ∀ o so, selections w !! o = Some so → J so));
    try done.
  - intros w' Hw' o so. simpl. destruct (decide (next_ref w' = o)) as [->|Hne].
    + rewrite lookup_insert_eq. by intros [= <-].
    + rewrite lookup_insert_ne by done. exact (Hw' o so).
  - intros this s w' Hw' Hs. apply (stored_invariant this s); auto.
  - intros this s w' Hw' Hs. apply (stored_invariant this s); auto.
  - intros this s range w' Hw' Hs Hfind.
    apply (stored_invariant this s _ (allocated 3 w')); auto.
  - intros this s b w' Hw' Hs. apply (stored_invariant this s); auto.
  - intros this s b l w' Hw' Hs Hbl. apply (stored_invariant this s); auto.
Qed.

End selection_invariant.

Lemma ordered_disjoint_take l k : ordered_disjoint l → ordered_disjoint (take k l).
Proof.
  intros Hl i j ri rj Hij Hi Hj.
  apply lookup_take_Some in Hi as [Hi _]. apply lookup_take_Some in Hj as [Hj _].
  eauto.
Qed.

Lemma ordered_disjoint_snoc l range r :
  ordered_disjoint l → first_intersecting range l = None →
  range_at r = range_at range → ordered_disjoint (l ++ [r]).
Proof.
  intros Hl Hfind Hat i j ri rj Hij Hi Hj.
  apply lookup_snoc_Some in Hj as [[Hjl Hj]|[-> <-]].
  - rewrite lookup_app_l in Hi by lia. eauto.
  - rewrite lookup_app_l in Hi by done.
    rewrite (Range_isIntersecting_at r range ri ri) by done.
    rewrite first_intersecting_None in Hfind. apply Hfind.
    by apply list_elem_of_lookup_2 in Hi.
Qed.

Lemma reachable_ordered_disjoint w this s :
  reachable w → selections w !! this = Some s → ordered_disjoint (_ranges s).
Proof.
  apply (reachable_selection_invariant (λ s, ordered_disjoint (_ranges s)));
    simpl; try done.
  - intros s' Hs'. by apply ordered_disjoint_take.
  - intros s' range n Hs' Hfind.
    apply (ordered_disjoint_snoc _ range); [done..|apply range_at_new].
Qed.

Lemma reachable_label_only_if_fake w this s :
  reachable w → selections w !! this = Some s → label_only_if_fake s.
Proof.
  by apply (reachable_selection_invariant label_only_if_fake).
Qed.

Lemma range_below_le n m r : n ≤ m → range_below n r → range_below m r.
Proof. unfold range_below. lia. Qed.

Lemma range_below_new n se : range_below (3 + n) (range_new n se).
Proof. unfold range_below. simpl. lia. Qed.

Lemma all_allocated_allocated k w : all_allocated w → all_allocated (allocated k w).
Proof.
  intros Hw this s Hs. destruct (Hw this s Hs) as [Hthis Hl]. simpl. split; [lia|].
  eapply Forall_impl; [done|]. intros r. apply range_below_le. lia.
Qed.

Lemma all_allocated_stored this s' w :
  all_allocated w → this < next_ref w →
  Forall (range_below (next_ref w)) (_ranges s') →
  all_allocated (stored this s' w).
Proof.
  intros Hw Hthis Hs' o so. simpl. destruct (decide (this = o)) as [->|Hne].
  - rewrite lookup_insert_eq. by intros [= <-].
  - rewrite lookup_insert_ne by done. apply Hw.
Qed.

Lemma reachable_all_allocated w : reachable w → all_allocated w.
Proof.
  apply (reachable_invariant all_allocated).
  - intros n this s. simpl. by rewrite lookup_empty.
  - apply all_allocated_allocated.
  - intros this w' Hw'. exact Hw'.
  - intros w' Hw'. apply all_allocated_stored; simpl; [|lia|done].
    by apply all_allocated_allocated.
  - intros this s w' Hw' Hs. destruct (Hw' this s Hs).
    by apply all_allocated_stored.
  - intros this s w' Hw' Hs. destruct (Hw' this s Hs).
    apply all_allocated_stored; [done..|]. by apply Forall_take.
  - intros this s range w' Hw' Hs _. destruct (Hw' this s Hs) as [Hthis Hl].
    apply all_allocated_stored; simpl; [by apply all_allocated_allocated|lia|].
    apply Forall_app. split.
    + eapply Forall_impl; [done|]. intros r. apply range_below_le. lia.
    + apply Forall_singleton, range_below_new.
  - intros this s b w' Hw' Hs. destruct (Hw' this s Hs).
    by apply all_allocated_stored.
  - intros this s b l w' Hw' Hs _. destruct (Hw' this s Hs).
    by apply all_allocated_stored.
Qed.

(** C1. In every reachable world the stored ranges of every selection
    are pairwise non-intersecting: each was found not to intersect the
    ranges stored before it and, the intersection predicate of Range
    being symmetric, no two distinct stored ranges intersect, in either
    order. *)
Theorem reachable_ranges_disjoint w this s :
  reachable w → selections w !! this = Some s →
  ordered_disjoint (_ranges s)
  ∧ ((∀ r o, isIntersecting r o = isIntersecting o r) →
     pairwise_disjoint (_ranges s)).
Proof.
  intros Hw Hs. pose proof (reachable_ordered_disjoint _ _ _ Hw Hs) as Hord.
  split; [done|]. intros Hsym i j ri rj Hij Hi Hj.
  destruct (decide (i < j)).
  - unfold Range_isIntersecting. rewrite Hsym. apply (Hord i j); auto.
  - apply (Hord j i); auto. lia.
Qed.

(** C8. In every reachable world a selection that is not fake has the
    empty label.  [_setFakeOptions] sets [_isFake] to [!!options.fake];
    it sets the label to [options.label], or to the empty string when
    there is none, if [options.fake] is truthy, and to the empty string
    if it is falsy, whatever label was passed; ranges and direction stay. *)
Theorem fake_label_discarded_unless_fake w this s :
  selections w !! this = Some s →
  (reachable w → isFake s = false → fakeSelectionLabel s = "")
  ∧ ∀ options, ∃ s',
      _setFakeOptions this options w = (Return tt, stored this s' w)
      ∧ isFake s' = truthy (prop_fake options)
      ∧ (truthy (prop_fake options) = true →
         fakeSelectionLabel s' = default "" (prop_label options))
      ∧ (truthy (prop_fake options) = false → fakeSelectionLabel s' = "")
      ∧ _ranges s' = _ranges s
      ∧ _lastRangeBackward s' = _lastRangeBackward s.
Proof.
  intros Hs. split.
  - intros Hw. by apply (reachable_label_only_if_fake w this).
  - intros options. eexists. split.
    + unfold _setFakeOptions. by rewrite (modify_run _ _ _ _ Hs).
    + simpl. by destruct (truthy (prop_fake options)).
Qed.

(** ** Anchor and focus *)

Lemma last_index {A} (l : list A) : l !! (length l - 1) = last l.
Proof. rewrite last_lookup. f_equal. lia. Qed.

Lemma anchor_run this s w :
  selections w !! this = Some s →
  anchor this w
  = match last (_ranges s) with
    | None => (Return None, w)
    | Some range =>
        (Return (Some {| pos_ref := next_ref w;
                         pos_at := anchor_at s range |}),
         allocated 1 w)
    end.
Proof.
  intros Hs. unfold anchor. rewrite (bind_Return _ _ _ _ _ (read_run _ _ _ Hs)).
  rewrite last_index. destruct (_ranges s) as [|r l] using rev_ind; [done|].
  rewrite length_app, last_snoc. simpl.
  by replace (length l + 1 =? 0) with false by (symmetry; apply Nat.eqb_neq; lia).
Qed.

Lemma focus_run this s w :
  selections w !! this = Some s →
  focus this w
  = match last (_ranges s) with
    | None => (Return None, w)
    | Some range =>
        (Return (Some {| pos_ref := next_ref w;
                         pos_at := focus_at s range |}),
         allocated 1 w)
    end.
Proof.
  intros Hs. unfold focus. rewrite (bind_Return _ _ _ _ _ (read_run _ _ _ Hs)).
  rewrite last_index. destruct (_ranges s) as [|r l] using rev_ind; [done|].
  rewrite length_app, last_snoc. simpl.
  by replace (length l + 1 =? 0) with false by (symmetry; apply Nat.eqb_neq; lia).
Qed.

Lemma anchor_last this s range w :
  selections w !! this = Some s → last (_ranges s) = Some range →
  anchor this w
  = (Return (Some {| pos_ref := next_ref w; pos_at := anchor_at s range |}),
     allocated 1 w).
Proof. intros Hs Hlast. by rewrite (anchor_run _ _ _ Hs), Hlast. Qed.

Lemma focus_last this s range w :
  selections w !! this = Some s → last (_ranges s) = Some range →
  focus this w
  = (Return (Some {| pos_ref := next_ref w; pos_at := focus_at s range |}),
     allocated 1 w).
Proof. intros Hs Hlast. by rewrite (focus_run _ _ _ Hs), Hlast. Qed.

Lemma fresh_independent w p :
  all_allocated w → pos_ref p = next_ref w → independent w p.
Proof.
  intros Hw Hp this s r Hs Hr. destruct (Hw this s Hs) as [_ Hl].
  rewrite Forall_forall in Hl. destruct (Hl r Hr) as (_ & ? & ?). lia.
Qed.

(** C3. With no stored range, [anchor] and [focus] are null.  Otherwise,
    for the range stored last, [anchor] is at its end if
    [_lastRangeBackward] is set and at its start if not, [focus] is at the
    other end, and each is a new Position object, none of those held in a
    stored range; the query changes no selection. *)
Theorem anchor_focus_of_last_range w this s :
  reachable w → selections w !! this = Some s →
  (_ranges s = [] →
   anchor this w = (Return None, w) ∧ focus this w = (Return None, w))
  ∧ (∀ earlier range, _ranges s = earlier ++ [range] →
     ∃ a f,
       anchor this w = (Return (Some a), allocated 1 w)
       ∧ focus this w = (Return (Some f), allocated 1 w)
       ∧ pos_at a = pos_at (if _lastRangeBackward s then end_ range else start range)
       ∧ pos_at f = pos_at (if _lastRangeBackward s then start range else end_ range)
       ∧ independent w a ∧ independent w f).
Proof.
  intros Hw Hs. rewrite (anchor_run _ _ _ Hs), (focus_run _ _ _ Hs).
  apply reachable_all_allocated in Hw. split.
  - by intros ->.
  - intros earlier range ->. rewrite last_snoc. do 2 eexists.
    refine (conj eq_refl (conj eq_refl (conj eq_refl (conj eq_refl (conj _ _)))));
      by apply fresh_independent.
Qed.

(** ** Moving the focus *)

Lemma Position_createAt_run itemOrPosition offset t w :
  target_of itemOrPosition offset = Some t →
  Position_createAt itemOrPosition offset w
  = (Return {| pos_ref := next_ref w; pos_at := t |}, allocated 1 w).
Proof.
  destruct itemOrPosition as [node|position]; simpl.
  - intros Ht. unfold bind. by rewrite Ht.
  - by intros [= <-].
Qed.

Lemma Position_createAt_throws itemOrPosition offset w :
  target_of itemOrPosition offset = None →
  Position_createAt itemOrPosition offset w = (Throw collaborator_error, w).
Proof.
  destruct itemOrPosition as [node|position]; simpl; [|done].
  intros Ht. unfold bind. by rewrite Ht.
Qed.

Lemma add_new_Range_run this s p q isBackward w :
  selections w !! this = Some s →
  (let! range := new_Range p q in _addRange this (a_Range range) isBackward) w
  = let added := range_new (next_ref w) (pos_at p, pos_at q) in
    match first_intersecting added (_ranges s) with
    | Some (_, storedRange) =>
        (Throw (view_selection_range_intersects added storedRange), allocated 3 w)
    | None =>
        (Return tt,
         stored this
           (set_lastRangeBackward isBackward
              (set_ranges
                 (_ranges s ++ [range_new (3 + next_ref w) (pos_at p, pos_at q)]) s))
           (allocated 6 w))
    end.
Proof.
  intros Hs. returns (new_Range_run p q w).
  rewrite (_addRange_run this s) by done. cbv zeta.
  destruct (first_intersecting _ _) as [[??]|]; [done|].
  by rewrite range_at_new, allocated_allocated.
Qed.

Lemma _setFocus_run this s earlier range itemOrPosition offset t w :
  selections w !! this = Some s →
  _ranges s = earlier ++ [range] →
  target_of itemOrPosition offset = Some t →
  _setFocus this itemOrPosition offset w
  = if String.eqb (compareWith t (focus_at s range)) "same"
    then (Return tt, allocated 3 w)
    else
      let added := range_new (4 + next_ref w) (moved_range (anchor_at s range) t) in
      match first_intersecting added earlier with
      | Some (_, storedRange) =>
          (Throw (view_selection_range_intersects added storedRange),
           stored this (set_ranges earlier s) (allocated 7 w))
      | None =>
          (Return tt,
           notified this
             (stored this
                (set_lastRangeBackward (moved_backward (anchor_at s range) t)
                   (set_ranges
                      (earlier ++ [range_new (7 + next_ref w)
                                     (moved_range (anchor_at s range) t)]) s))
                (allocated 10 w)))
      end.
Proof.
  intros Hs Hl Ht. unfold _setFocus.
  assert (Hlast : last (_ranges s) = Some range) by (by rewrite Hl, last_snoc).
  returns (anchor_last _ _ _ w Hs Hlast).
  returns (Position_createAt_run _ _ _ (allocated 1 w) Ht).
  returns (focus_last this s _ (allocated 1 (allocated 1 w)) Hs Hlast).
  unfold Position_compareWith at 1. cbn [pos_at].
  destruct (String.eqb (compareWith t (focus_at s range)) "same");
    [by rewrite !allocated_allocated|].
  returns (anchor_last this s _ (allocated 1 (allocated 1 (allocated 1 w))) Hs Hlast).
  rewrite !allocated_allocated. simpl Nat.add.
  returns (modify_run this s (λ s, set_ranges (take (length (_ranges s) - 1) (_ranges s)) s)
             (allocated 4 w) Hs).
  replace (take (length (_ranges s) - 1) (_ranges s)) with earlier; last first.
  { rewrite Hl, length_app. simpl.
    replace (length earlier + 1 - 1) with (length earlier) by lia.
    by rewrite take_app_length. }
  unfold Position_compareWith. cbn [pos_at].
  fold (moved_backward (anchor_at s range) t). unfold moved_range.
  set (w1 := stored this (set_ranges earlier s) (allocated 4 w)).
  assert (Hs1 : selections w1 !! this = Some (set_ranges earlier s))
    by apply lookup_insert_eq.
  destruct (moved_backward (anchor_at s range) t); unfold bind at 1;
    rewrite (add_new_Range_run _ _ _ _ _ _ Hs1); simpl;
    (destruct (first_intersecting _ earlier) as [[??]|]; [done|]);
    unfold fire, notified, stored, allocated; simpl;
    by rewrite insert_insert_eq.
Qed.

Lemma moved_backward_before a t :
  moved_backward a t = true ↔ compareWith t a = "before".
Proof. unfold moved_backward. by rewrite String.eqb_eq. Qed.

(** C5. On a selection with a stored range, [_setFocus] to a position
    that compares as 'same' with the current focus returns with every
    selection exactly as it was, the stored range objects and the
    direction flag of this one included, and fires nothing. *)
Theorem setFocus_same_focus_is_noop this s earlier range itemOrPosition offset t w :
  selections w !! this = Some s →
  _ranges s = earlier ++ [range] →
  target_of itemOrPosition offset = Some t →
  compareWith t (focus_at s range) = "same" →
  ∃ w', _setFocus this itemOrPosition offset w = (Return tt, w')
        ∧ selections w' = selections w
        ∧ fired w' = fired w.
Proof.
  intros Hs Hl Ht Hsame. rewrite (_setFocus_run _ _ _ _ _ _ _ _ Hs Hl Ht).
  rewrite Hsame. simpl. by eexists.
Qed.

(** C6. On a selection whose last stored range has its anchor at [a],
    [_setFocus] to a position [t] that does not compare as 'same' with
    the current focus changes this selection only, and in it only the
    last stored range and the direction flag: the ranges stored earlier
    stay, and the last one is replaced by a range between [a] and [t],
    from [t] to [a] and backward if [t] compares as 'before' with [a],
    from [a] to [t] and forward if not.  If the new range intersects none
    of the earlier ones the call returns and has fired one change; if it
    intersects one, the call throws, the earlier ranges alone are left and
    nothing is fired.  For a single stored range and [t] before [a], the
    selection ends with the one range from [t] to [a] and is backward. *)
Theorem setFocus_replaces_last_range this s earlier range itemOrPosition offset t w :
  selections w !! this = Some s →
  _ranges s = earlier ++ [range] →
  target_of itemOrPosition offset = Some t →
  compareWith t (focus_at s range) ≠ "same" →
  let a := anchor_at s range in
  ∃ result w' s',
    _setFocus this itemOrPosition offset w = (result, w')
    ∧ selections w' = <[this := s']> (selections w)
    ∧ isFake s' = isFake s ∧ fakeSelectionLabel s' = fakeSelectionLabel s
    ∧ ((∀ storedRange, storedRange ∈ earlier →
          isIntersecting (if String.eqb (compareWith t a) "before" then (t, a) else (a, t))
                         (range_at storedRange) = false) →
       ∃ added,
         result = Return tt
         ∧ _ranges s' = earlier ++ [added]
         ∧ (compareWith t a = "before" →
            range_at added = (t, a) ∧ _lastRangeBackward s' = true)
         ∧ (compareWith t a ≠ "before" →
            range_at added = (a, t) ∧ _lastRangeBackward s' = false)
         ∧ fired w' = fired w ++ [(this, "change")]
         ∧ ((∀ p, compareWith p p ≠ "before") → earlier = [] →
            compareWith t a = "before" →
            range_at <$> _ranges s' = [(t, a)] ∧ isBackward s' = true))
    ∧ ((∃ storedRange, storedRange ∈ earlier ∧
          isIntersecting (if String.eqb (compareWith t a) "before" then (t, a) else (a, t))
                         (range_at storedRange) = true) →
       ∃ added storedRange,
         result = Throw (view_selection_range_intersects added storedRange)
         ∧ storedRange ∈ earlier
         ∧ _ranges s' = earlier
         ∧ fired w' = fired w).
Proof.
  intros Hs Hl Ht Hsame a. rewrite (_setFocus_run _ _ _ _ _ _ _ _ Hs Hl Ht).
  apply String.eqb_neq in Hsame. rewrite Hsame. cbv zeta. fold a.
  fold (moved_backward a t). fold (moved_range a t).
  set (new := range_new (4 + next_ref w) (moved_range a t)).
  assert (Hnew : ∀ st, Range_isIntersecting new st
                       = isIntersecting (moved_range a t) (range_at st)).
  { intros st. unfold Range_isIntersecting, new. by rewrite range_at_new. }
  destruct (first_intersecting new earlier) as [[i st]|] eqn:Hfind.
  - apply first_intersecting_Some in Hfind as (Hi & Hst & _).
    apply list_elem_of_lookup_2 in Hi. rewrite Hnew in Hst.
    do 3 eexists. split; [reflexivity|]. split; [reflexivity|].
    split; [done|]. split; [done|]. split.
    + intros Hnone. by rewrite (Hnone st Hi) in Hst.
    + intros _. by exists new, st.
  - rewrite first_intersecting_None in Hfind.
    do 3 eexists. split; [reflexivity|]. split; [reflexivity|].
    split; [done|]. split; [done|]. split.
    + intros _. eexists. split; [done|]. split; [reflexivity|].
      rewrite range_at_new. unfold moved_range. simpl.
      destruct (moved_backward a t) eqn:Hmb.
      * apply moved_backward_before in Hmb.
        split; [done|]. split; [done|]. split; [done|].
        intros Hirr -> _. split; [done|].
        unfold isBackward, isCollapsed, Range_isCollapsed, Position_isEqual.
        simpl. rewrite bool_decide_eq_false_2; [done|].
        intros ->. by apply (Hirr a).
      * assert (compareWith t a ≠ "before") as Hnb.
        { rewrite <- moved_backward_before. by rewrite Hmb. }
        done.
    + intros (st & Hst & Hyes). by rewrite <- Hnew, (Hfind st Hst) in Hyes.
Qed.

(** ** Replacing the ranges *)

Lemma for_each_app {A} (l1 l2 : list (M A)) body w :
  for_each (l1 ++ l2) body w = (for_each l1 body ;; for_each l2 body) w.
Proof.
  revert w. induction l1 as [|next l1 IH]; intros w; simpl; [done|].
  unfold bind in *. destruct (next w) as [[x|e] w1]; [|done].
  destruct (body x w1) as [[[]|e] w2]; [|done].
  apply IH.
Qed.

Lemma first_intersecting_accepted r l :
  (∀ o, o ∈ range_at <$> l → isIntersecting (range_at r) o = false) →
  first_intersecting r l = None.
Proof.
  intros Hr. apply first_intersecting_None. intros st Hst.
  apply Hr, list_elem_of_fmap. by exists st.
Qed.

Lemma selection_eta s :
  set_lastRangeBackward (_lastRangeBackward s) (set_ranges (_ranges s ++ []) s) = s.
Proof. destruct s. unfold set_lastRangeBackward, set_ranges. simpl. by rewrite app_nil_r. Qed.

(** Ranges that pass the check are stored, as copies, after the ranges
    already there. *)
Lemma add_each_accepted this k items rs s w :
  selections w !! this = Some s →
  Forall2 (yields k) items rs →
  accepts (range_at <$> _ranges s) rs →
  ∃ added j,
    for_each items (λ range, _addRange this range false) w
    = (Return tt,
       stored this
         (set_lastRangeBackward
            (match rs with [] => _lastRangeBackward s | _ => false end)
            (set_ranges (_ranges s ++ added) s))
         (allocated j w))
    ∧ range_at <$> added = range_at <$> rs.
Proof.
  intros Hs Hitems. revert s w Hs.
  induction Hitems as [|next r items rs Hnext _ IH]; intros s w Hs Hrs.
  - exists [], 0. simpl. by rewrite selection_eta, allocated_0, stored_same.
  - destruct Hrs as [Hr Hrs]. simpl.
    destruct (Hnext w) as (r' & Hrun & Hr'). returns Hrun.
    assert (selections (allocated k w) !! this = Some s) as Hs' by done.
    unfold bind at 1. rewrite (_addRange_run _ _ _ _ _ Hs').
    rewrite first_intersecting_accepted by (by rewrite Hr').
    set (s1 := set_lastRangeBackward false _).
    destruct (IH s1 (stored this s1 (allocated 3 (allocated k w))))
      as (added & j & Hrest & Hadded).
    { apply lookup_insert_eq. }
    { unfold s1. cbn [_ranges set_ranges set_lastRangeBackward].
      by rewrite fmap_app, fmap_cons, range_at_new, Hr'. }
    exists (range_new (next_ref (allocated k w)) (range_at r') :: added), (j + (3 + k)).
    split; [|by rewrite fmap_cons, range_at_new, Hr', Hadded].
    rewrite Hrest. f_equal. unfold stored, allocated, s1. simpl.
    rewrite insert_insert_eq, <- (assoc_L (++)). simpl.
    f_equal; [|lia]. by destruct rs.
Qed.

Lemma yields_array (rs : list Range) :
  Forall2 (yields 0) (ret <$> (a_Range <$> rs)) rs.
Proof.
  induction rs as [|r rs IH]; constructor; [|done].
  intros w. exists r. by rewrite allocated_0.
Qed.

Lemma yields_getRanges (rs : list Range) :
  Forall2 (yields 3)
    ((λ next, let! range := next in ret (a_Range range))
       <$> (Range_createFromRange <$> rs)) rs.
Proof.
  induction rs as [|r rs IH]; constructor; [|done].
  intros w. exists (range_new (next_ref w) (range_at r)).
  split; [done|]. apply range_at_new.
Qed.

Lemma first_intersecting_is_Some r l :
  (∃ o, o ∈ l ∧ Range_isIntersecting r o = true) →
  ∃ i st, first_intersecting r l = Some (i, st) ∧ st ∈ l.
Proof.
  intros (o & Ho & Hr).
  destruct (first_intersecting r l) as [[i st]|] eqn:Hfind.
  - exists i, st. split; [done|].
    apply first_intersecting_Some in Hfind as (Hi & _).
    by apply list_elem_of_lookup_2 in Hi.
  - rewrite first_intersecting_None in Hfind. by rewrite (Hfind o Ho) in Hr.
Qed.

(** C9. [_setRanges] is not atomic.  Handed new ranges of which the
    first k-1 pass the check and the k-th is not a Range, or intersects
    one of those k-1, it throws view-selection-invalid-range or
    view-selection-range-intersects and leaves this selection with
    copies of exactly the first k-1 new ranges: the ranges stored before
    the call are gone and are not put back. *)
Theorem setRanges_keeps_ranges_before_failure this s pre bad rest isLastBackward w :
  selections w !! this = Some s →
  accepts [] pre →
  (bad = not_a_Range
   ∨ ∃ r o, bad = a_Range r ∧ o ∈ pre ∧ Range_isIntersecting r o = true) →
  ∃ e w' s',
    _setRanges this (array ((a_Range <$> pre) ++ bad :: rest)) isLastBackward w
    = (Throw e, w')
    ∧ (bad = not_a_Range → e = view_selection_invalid_range)
    ∧ (∀ r, bad = a_Range r →
       ∃ st, e = view_selection_range_intersects r st ∧ st ∈ _ranges s')
    ∧ selections w' = <[this := s']> (selections w)
    ∧ range_at <$> _ranges s' = range_at <$> pre
    ∧ length (_ranges s') = length pre
    ∧ fired w' = fired w.
Proof.
  intros Hs Hpre Hbad. unfold _setRanges.
  returns (modify_run this s (set_ranges []) w Hs).
  set (s0 := set_ranges [] s). set (w0 := stored this s0 w).
  assert (Hs0 : selections w0 !! this = Some s0) by apply lookup_insert_eq.
  destruct (add_each_accepted this 0 _ pre s0 w0 Hs0 (yields_array pre) Hpre)
    as (added & j & Hrun & Hadded).
  simpl in Hrun. set (s1 := set_lastRangeBackward _ _) in Hrun.
  set (w1 := stored this s1 (allocated j w0)) in Hrun.
  assert (Hs1 : selections w1 !! this = Some s1) by apply lookup_insert_eq.
  assert (Hw1 : selections w1 = <[this := s1]> (selections w)).
  { unfold w1, w0. simpl. by rewrite insert_insert_eq. }
  assert (Hlen : length (_ranges s1) = length pre).
  { simpl. by rewrite <- (length_fmap range_at added), Hadded, length_fmap. }
  unfold bind at 1. rewrite for_of_array, fmap_app, for_each_app.
  returns Hrun. simpl. rewrite bind_ret.
  destruct Hbad as [->|(r & o & -> & Ho & Hr)].
  - exists view_selection_invalid_range, w1, s1. by repeat split.
  - destruct (first_intersecting_is_Some r (_ranges s1)) as (i & st & Hfind & Hst).
    { assert (range_at o ∈ range_at <$> added) as (o' & Ho' & Hin)%list_elem_of_fmap.
      { rewrite Hadded. apply list_elem_of_fmap. by exists o. }
      exists o'. split; [done|].
      by rewrite (Range_isIntersecting_at r r o' o). }
    unfold bind at 1. rewrite (_addRange_run _ _ _ _ _ Hs1), Hfind.
    exists (view_selection_range_intersects r st), w1, s1.
    split; [done|]. split; [done|]. split.
    { intros r0 [= <-]. by exists st. }
    done.
Qed.

(** ** Equality *)

Lemma Range_isEqual_at r r' : Range_isEqual r r' = true ↔ range_at r = range_at r'.
Proof.
  unfold Range_isEqual, Position_isEqual, range_at.
  rewrite andb_true_iff, !bool_decide_eq_true. split; [by intros [-> ->]|].
  by intros [= -> ->].
Qed.

Lemma ranges_found_in_true a b :
  forallb (λ thisRange,
             existsb (λ otherRange, Range_isEqual thisRange otherRange) (_ranges b))
          (_ranges a) = true
  ↔ ranges_found_in a b.
Proof.
  unfold ranges_found_in. rewrite forallb_forall. split; intros Hab r Hr.
  - apply list_elem_of_In, Hab, existsb_exists in Hr as (r' & Hr' & Heq).
    exists r'. by rewrite <- Range_isEqual_at, list_elem_of_In.
  - apply list_elem_of_In, Hab in Hr as (r' & Hr' & Heq).
    apply existsb_exists. exists r'. by rewrite Range_isEqual_at, <- list_elem_of_In.
Qed.

Lemma isEqual_run this otherSelection a b w :
  selections w !! this = Some a → selections w !! otherSelection = Some b →
  ∃ k,
    isEqual this otherSelection w
    = (Return
         (if negb (eqb (isFake a) (isFake b)) then false
          else if isFake a && negb (String.eqb (fakeSelectionLabel a) (fakeSelectionLabel b))
          then false
          else if negb (rangeCount a =? rangeCount b) then false
          else if rangeCount a =? 0 then true
          else
            match last (_ranges a), last (_ranges b) with
            | Some ra, Some rb =>
                bool_decide (anchor_at a ra = anchor_at b rb)
                && bool_decide (focus_at a ra = focus_at b rb)
                && forallb (λ thisRange,
                              existsb (λ otherRange, Range_isEqual thisRange otherRange)
                                      (_ranges b))
                           (_ranges a)
            | _, _ => false
            end),
       allocated k w).
Proof.
  intros Ha Hb. unfold isEqual.
  returns (read_run _ _ w Ha). returns (read_run _ _ w Hb).
  destruct (negb (eqb _ _)); [exists 0; by rewrite allocated_0|].
  destruct (isFake a && _); [exists 0; by rewrite allocated_0|].
  destruct (rangeCount a =? rangeCount b) eqn:Hcount;
    [|exists 0; by rewrite allocated_0]. simpl negb. cbv iota.
  destruct (rangeCount a =? 0) eqn:Hzero; [exists 0; by rewrite allocated_0|].
  apply Nat.eqb_eq in Hcount. apply Nat.eqb_neq in Hzero. unfold rangeCount in *.
  destruct (last (_ranges a)) as [ra|] eqn:Hra;
    [|apply last_None in Hra; rewrite Hra in Hzero; done].
  destruct (last (_ranges b)) as [rb|] eqn:Hrb;
    [|apply last_None in Hrb; rewrite Hrb in Hcount; done].
  cbn [negb]. returns (anchor_last _ _ _ w Ha Hra).
  returns (anchor_last _ _ _ (allocated 1 w) Hb Hrb).
  cbn [isEqual_positions]. rewrite bind_ret. unfold Position_isEqual at 1.
  cbn [pos_at].
  destruct (bool_decide (anchor_at a ra = anchor_at b rb)); cbn [negb andb];
    [|exists 2; by rewrite allocated_allocated].
  returns (focus_last _ _ _ (allocated 1 (allocated 1 w)) Ha Hra).
  returns (focus_last _ _ _ (allocated 1 (allocated 1 (allocated 1 w))) Hb Hrb).
  cbn [isEqual_positions]. rewrite bind_ret. unfold Position_isEqual at 1.
  cbn [pos_at].
  rewrite !allocated_allocated.
  destruct (bool_decide (focus_at a ra = focus_at b rb)); cbn [negb andb];
    by exists 4.
Qed.

Lemma same_fake_true a b :
  negb (eqb (isFake a) (isFake b)) = false
  ∧ isFake a && negb (String.eqb (fakeSelectionLabel a) (fakeSelectionLabel b)) = false
  ↔ same_fake a b.
Proof.
  unfold same_fake. rewrite negb_false_iff, eqb_true_iff, andb_false_iff.
  rewrite negb_false_iff, String.eqb_eq. split.
  - intros [Hf [Hl|Hl]]; split; try done. rewrite Hl. done.
  - intros [Hf Hl]. split; [done|]. destruct (isFake a); auto.
Qed.

Lemma equal_as_checked_run a b :
  (if negb (eqb (isFake a) (isFake b)) then false
   else if isFake a && negb (String.eqb (fakeSelectionLabel a) (fakeSelectionLabel b))
   then false
   else if negb (rangeCount a =? rangeCount b) then false
   else if rangeCount a =? 0 then true
   else
     match last (_ranges a), last (_ranges b) with
     | Some ra, Some rb =>
         bool_decide (anchor_at a ra = anchor_at b rb)
         && bool_decide (focus_at a ra = focus_at b rb)
         && forallb (λ thisRange,
                       existsb (λ otherRange, Range_isEqual thisRange otherRange)
                               (_ranges b))
                    (_ranges a)
     | _, _ => false
     end) = true
  ↔ equal_as_checked a b.
Proof.
  unfold equal_as_checked. rewrite <- same_fake_true.
  destruct (negb (eqb (isFake a) (isFake b)));
    [split; [done|]; by intros [[? _] _]|].
  destruct (isFake a && _); [split; [done|]; by intros [[_ ?] _]|].
  destruct (rangeCount a =? rangeCount b) eqn:Hcount; simpl;
    [apply Nat.eqb_eq in Hcount
    |apply Nat.eqb_neq in Hcount; split; [done|]; by intros (_ & ? & _)].
  destruct (rangeCount a =? 0) eqn:Hzero;
    [apply Nat.eqb_eq in Hzero|apply Nat.eqb_neq in Hzero].
  - unfold rangeCount in Hzero. apply nil_length_inv in Hzero.
    split; [intros _|done]. refine (conj (conj eq_refl eq_refl) (conj Hcount (conj _ _))).
    + intros x y Hx. by rewrite Hzero in Hx.
    + intros r Hr. rewrite Hzero in Hr. by apply not_elem_of_nil in Hr.
  - unfold rangeCount in *.
    destruct (last (_ranges a)) as [ra|] eqn:Hra;
      [|apply last_None in Hra; rewrite Hra in Hzero; done].
    destruct (last (_ranges b)) as [rb|] eqn:Hrb;
      [|apply last_None in Hrb; rewrite Hrb in Hcount; done].
    rewrite !andb_true_iff, !bool_decide_eq_true, ranges_found_in_true.
    unfold same_anchor_and_focus. rewrite Hra, Hrb. split.
    + intros [[Ha Hf] Hfound].
      refine (conj (conj eq_refl eq_refl) (conj Hcount (conj _ Hfound))).
      by intros ?? [= <-] [= <-].
    + intros (_ & _ & Haf & Hfound). destruct (Haf ra rb) as [??]; done.
Qed.

(** Without two stored ranges at the same ends in [a], the check of
    [isEqual] on the ranges is the multiset match. *)
Lemma ranges_found_in_multisets a b :
  NoDup (range_at <$> _ranges a) → rangeCount a = rangeCount b →
  ranges_found_in a b ↔ ranges_match_as_multisets a b.
Proof.
  intros Hnodup Hcount. unfold ranges_found_in, ranges_match_as_multisets. split.
  - intros Hfound. apply submseteq_length_Permutation.
    + apply NoDup_submseteq; [done|]. intros se (r & -> & Hr)%list_elem_of_fmap.
      destruct (Hfound r Hr) as (r' & Hr' & ->). apply list_elem_of_fmap. eauto.
    + rewrite !length_fmap. unfold rangeCount in Hcount. lia.
  - intros Hperm r Hr.
    assert (range_at r ∈ range_at <$> _ranges b) as (r' & ? & ?)%list_elem_of_fmap.
    { rewrite <- Hperm. apply list_elem_of_fmap. eauto. }
    eauto.
Qed.

(** C4 (amended). [isEqual] changes no selection and returns true exactly
    when the fake flags are the same, the labels are the same if the
    selections are fake, the range counts are the same, anchors and
    focuses are at the same places (nothing to compare without ranges),
    and every stored range of this selection has a stored range of the
    other at the same ends.  When no two stored ranges of this selection
    are at the same ends, that last check is the match of the two range
    lists as multisets. *)
Theorem isEqual_checks_ranges_one_way this otherSelection a b w :
  selections w !! this = Some a → selections w !! otherSelection = Some b →
  ∃ result w',
    isEqual this otherSelection w = (Return result, w')
    ∧ selections w' = selections w ∧ fired w' = fired w
    ∧ (result = true ↔ equal_as_checked a b)
    ∧ (NoDup (range_at <$> _ranges a) →
       (result = true ↔ equal_as_specified a b)).
Proof.
  intros Ha Hb. destruct (isEqual_run _ _ _ _ w Ha Hb) as [k Hrun].
  do 2 eexists. split; [exact Hrun|]. split; [done|]. split; [done|].
  rewrite equal_as_checked_run. split; [done|].
  intros Hnodup. unfold equal_as_checked, equal_as_specified.
  split; intros (Hfake & Hcount & Haf & Hranges);
    refine (conj Hfake (conj Hcount (conj Haf _)));
    by apply (ranges_found_in_multisets a b).
Qed.

(** ** Similarity *)

Lemma getRanges_run this s w :
  selections w !! this = Some s →
  getRanges this w = (Return (Range_createFromRange <$> _ranges s), w).
Proof. intros Hs. unfold getRanges. by returns (read_run _ _ w Hs). Qed.

Lemma count_copies_run (l : list Range) w :
  count_items (Range_createFromRange <$> l) w
  = (Return (length l), allocated (3 * length l) w).
Proof.
  revert w. induction l as [|r l IH]; intros w.
  - simpl. by rewrite allocated_0.
  - rewrite fmap_cons. cbn [count_items].
    returns (Range_createFromRange_run r w). returns (IH (allocated 3 w)).
    rewrite allocated_allocated. unfold ret. do 2 f_equal. simpl. lia.
Qed.

Lemma count_getRanges_run this s w :
  selections w !! this = Some s →
  count (getRanges this) w = (Return (rangeCount s), allocated (3 * rangeCount s) w).
Proof.
  intros Hs. unfold count. returns (getRanges_run _ _ w Hs). apply count_copies_run.
Qed.

Lemma some_similar_run rangeA ra (l : list Range) w :
  range_at rangeA = getTrimmed (range_at ra) →
  ∃ k, some_similar rangeA (Range_createFromRange <$> l) w
       = (Return (existsb (trims_alike ra) l), allocated k w).
Proof.
  intros HA. revert w. induction l as [|rb l IH]; intros w.
  - exists 0. simpl. by rewrite allocated_0.
  - rewrite fmap_cons. cbn [some_similar existsb].
    returns (Range_createFromRange_run rb w).
    unfold Range_getTrimmed. returns (Range_of_run
      (getTrimmed (range_at (range_new (next_ref w) (range_at rb)))) (allocated 3 w)).
    rewrite range_at_new, allocated_allocated. change (3 + 3) with 6.
    replace (Position_isEqual _ _ && Position_isEqual _ _)
      with (trims_alike ra rb).
    + destruct (trims_alike ra rb).
      * by exists 6.
      * destruct (IH (allocated 6 w)) as [k Hk]. exists (k + 6).
        by rewrite Hk, allocated_allocated.
    + unfold trims_alike, Position_isEqual. cbn [start end_ pos_at range_new].
      destruct (getTrimmed (range_at ra)) as [p q].
      destruct (getTrimmed (range_at rb)) as [p' q'].
      unfold range_at in HA. injection HA as -> ->. simpl.
      destruct (decide (p = p')) as [->|];
        destruct (decide (q = q')) as [->|];
        rewrite ?bool_decide_eq_true_2, ?bool_decide_eq_false_2 by congruence;
        simpl; try done;
        by rewrite ?bool_decide_eq_true_2, ?bool_decide_eq_false_2 by congruence.
Qed.

Lemma all_similar_run otherSelection b (l : list Range) w :
  selections w !! otherSelection = Some b →
  ∃ k, all_similar (Range_createFromRange <$> l) (getRanges otherSelection) w
       = (Return (forallb (λ ra, existsb (trims_alike ra) (_ranges b)) l),
          allocated k w).
Proof.
  intros Hb. revert w Hb. induction l as [|ra l IH]; intros w Hb.
  - exists 0. simpl. by rewrite allocated_0.
  - rewrite fmap_cons. cbn [all_similar forallb].
    returns (Range_createFromRange_run ra w).
    unfold Range_getTrimmed at 1. returns (Range_of_run
      (getTrimmed (range_at (range_new (next_ref w) (range_at ra)))) (allocated 3 w)).
    rewrite range_at_new, allocated_allocated. change (3 + 3) with 6.
    returns (getRanges_run otherSelection b (allocated 6 w) Hb).
    set (rangeA := range_new _ _).
    destruct (some_similar_run rangeA ra (_ranges b) (allocated 6 w)) as [j Hj];
      [apply range_at_new|].
    returns Hj. rewrite allocated_allocated.
    destruct (existsb (trims_alike ra) (_ranges b)); cbn [negb andb].
    + destruct (IH (allocated (j + 6) w) Hb) as [k Hk]. exists (k + (j + 6)).
      by rewrite Hk, allocated_allocated.
    + by exists (j + 6).
Qed.

Lemma isSimilar_run this otherSelection a b w :
  selections w !! this = Some a → selections w !! otherSelection = Some b →
  ∃ k,
    isSimilar this otherSelection w
    = (Return
         (if negb (eqb (isBackward a) (isBackward b)) then false
          else if negb (rangeCount a =? rangeCount b) then false
          else if rangeCount a =? 0 then true
          else forallb (λ ra, existsb (trims_alike ra) (_ranges b)) (_ranges a)),
       allocated k w).
Proof.
  intros Ha Hb. unfold isSimilar.
  returns (read_run _ _ w Ha). returns (read_run _ _ w Hb).
  destruct (negb (eqb _ _)); [exists 0; by rewrite allocated_0|].
  returns (count_getRanges_run this a w Ha).
  returns (count_getRanges_run otherSelection b (allocated (3 * rangeCount a) w) Hb).
  rewrite allocated_allocated.
  destruct (negb (rangeCount a =? rangeCount b)); [by eexists|].
  destruct (rangeCount a =? 0); [by eexists|].
  set (w1 := allocated _ w).
  assert (Ha1 : selections w1 !! this = Some a) by done.
  assert (Hb1 : selections w1 !! otherSelection = Some b) by done.
  returns (getRanges_run this a w1 Ha1).
  destruct (all_similar_run otherSelection b (_ranges a) w1 Hb1) as [k Hk].
  rewrite Hk. unfold w1. rewrite allocated_allocated. by eexists.
Qed.

Lemma trimmed_found_in_true a b :
  forallb (λ ra, existsb (trims_alike ra) (_ranges b)) (_ranges a) = true
  ↔ trimmed_found_in a b.
Proof.
  unfold trimmed_found_in, trims_alike. rewrite forallb_forall.
  split; intros Hab r Hr.
  - apply list_elem_of_In, Hab, existsb_exists in Hr as (r' & Hr' & Heq).
    apply list_elem_of_In in Hr'. apply bool_decide_eq_true in Heq. eauto.
  - apply list_elem_of_In, Hab in Hr as (r' & Hr' & Heq).
    apply existsb_exists. exists r'.
    rewrite bool_decide_eq_true, <- list_elem_of_In. done.
Qed.

Lemma similar_run a b :
  (if negb (eqb (isBackward a) (isBackward b)) then false
   else if negb (rangeCount a =? rangeCount b) then false
   else if rangeCount a =? 0 then true
   else forallb (λ ra, existsb (trims_alike ra) (_ranges b)) (_ranges a)) = true
  ↔ similar a b.
Proof.
  unfold similar.
  destruct (eqb (isBackward a) (isBackward b)) eqn:Hback; simpl;
    [apply eqb_prop in Hback
    |rewrite eqb_false_iff in Hback; split; [done|]; by intros (? & _)].
  destruct (rangeCount a =? rangeCount b) eqn:Hcount; simpl;
    [apply Nat.eqb_eq in Hcount
    |apply Nat.eqb_neq in Hcount; split; [done|]; by intros (_ & ? & _)].
  rewrite <- trimmed_found_in_true.
  destruct (rangeCount a =? 0) eqn:Hzero.
  - apply Nat.eqb_eq, nil_length_inv in Hzero. rewrite Hzero. simpl.
    split; [intros _; auto|done].
  - split; [intros ?; auto|by intros (_ & _ & ?)].
Qed.

Lemma similar_same_ranges a b a' b' :
  _ranges a' = _ranges a → _lastRangeBackward a' = _lastRangeBackward a →
  _ranges b' = _ranges b → _lastRangeBackward b' = _lastRangeBackward b →
  similar a' b' ↔ similar a b.
Proof.
  intros Ha Hla Hb Hlb.
  unfold similar, trimmed_found_in, isBackward, isCollapsed, rangeCount.
  by rewrite Ha, Hla, Hb, Hlb.
Qed.

(** C10 (amended). [isSimilar] changes no selection and returns true
    exactly when the two selections have the same direction, the same
    number of ranges and each trimmed range of this one has a trimmed
    range of the other at the same ends.  The fake flag and label take no part: selections
    with the same stored ranges and direction flags get the same answer
    whatever their fake metadata.  Two selections without ranges and
    with the same direction are similar, while [isEqual] says false of
    them when their fake metadata differ: one is fake and the other is
    not, or both are fake under different labels. *)
Theorem isSimilar_ignores_fake_metadata this otherSelection a b w :
  selections w !! this = Some a → selections w !! otherSelection = Some b →
  ∃ result w',
    isSimilar this otherSelection w = (Return result, w')
    ∧ selections w' = selections w ∧ fired w' = fired w
    ∧ (result = true ↔ similar a b)
    ∧ (∀ w2 a2 b2,
         selections w2 !! this = Some a2 → selections w2 !! otherSelection = Some b2 →
         _ranges a2 = _ranges a → _lastRangeBackward a2 = _lastRangeBackward a →
         _ranges b2 = _ranges b → _lastRangeBackward b2 = _lastRangeBackward b →
         (isSimilar this otherSelection w2).1 = Return result)
    ∧ (_ranges a = [] → _ranges b = [] → isBackward a = isBackward b →
       result = true
       ∧ (¬ same_fake a b → (isEqual this otherSelection w).1 = Return false)).
Proof.
  intros Ha Hb. destruct (isSimilar_run _ _ _ _ w Ha Hb) as [k Hrun].
  do 2 eexists. split; [exact Hrun|]. split; [done|]. split; [done|].
  split; [apply similar_run|]. split.
  - intros w2 a2 b2 Ha2 Hb2 Hra Hla Hrb Hlb.
    destruct (isSimilar_run _ _ _ _ w2 Ha2 Hb2) as [k2 ->]. simpl. f_equal.
    apply eq_true_iff_eq. rewrite !similar_run. by apply similar_same_ranges.
  - intros Hra Hrb Hback. split.
    + apply similar_run. split; [done|]. unfold trimmed_found_in, rangeCount.
      rewrite Hra, Hrb. split; [done|].
      intros r Hr. by apply not_elem_of_nil in Hr.
    + intros Hfake. destruct (isEqual_run _ _ _ _ w Ha Hb) as [j ->]. simpl.
      rewrite <- same_fake_true in Hfake.
      destruct (negb (eqb (isFake a) (isFake b))); [done|].
      destruct (isFake a && _); [done|]. by destruct Hfake.
Qed.

(** ** Copying a selection *)

Lemma ordered_disjoint_accepts pre l :
  ordered_disjoint (pre ++ l) → accepts (range_at <$> pre) l.
Proof.
  revert pre. induction l as [|r l IH]; intros pre Hord; [done|]. split.
  - intros o (st & -> & Hst)%list_elem_of_fmap.
    apply list_elem_of_lookup in Hst as [i Hi].
    apply (Hord i (length pre) st r).
    + by apply lookup_lt_Some in Hi.
    + by rewrite lookup_app_l by (by apply lookup_lt_Some in Hi).
    + by rewrite list_lookup_middle.
  - specialize (IH (pre ++ [r])). rewrite fmap_app in IH. apply IH.
    by rewrite <- (assoc_L (++)).
Qed.

Lemma as_values_getRanges_run this s w :
  selections w !! this = Some s →
  as_values (getRanges this) w
  = (Return ((λ next, let! range := next in ret (a_Range range))
               <$> (Range_createFromRange <$> _ranges s)), w).
Proof. intros Hs. unfold as_values. by returns (getRanges_run _ _ w Hs). Qed.

(** [_setTo] from another selection whose ranges pass the checks *)
Lemma _setTo_Selection_run this other s0 s optionsOrPlaceOrOffset options w :
  selections w !! this = Some s0 → selections w !! other = Some s →
  this ≠ other → ordered_disjoint (_ranges s) →
  ∃ added j,
    _setTo this (a_Selection other) optionsOrPlaceOrOffset options w
    = (Return tt,
       notified this
         (stored this
            {| _ranges := added; _lastRangeBackward := isBackward s;
               _isFake := isFake s;
               _fakeSelectionLabel := if isFake s then fakeSelectionLabel s else "" |}
            (allocated j w)))
    ∧ range_at <$> added = range_at <$> _ranges s.
Proof.
  intros Hs0 Hs Hne Hord. unfold _setTo.
  assert (Hother : ∀ c v, selections (stored this c v) !! other = selections v !! other).
  { intros c v. simpl. by rewrite lookup_insert_ne. }
  assert (Hthis : ∀ c v, selections (stored this c v) !! this = Some c).
  { intros c v. apply lookup_insert_eq. }
  unfold bind at 1. unfold bind at 1. rewrite (read_run _ _ w Hs).
  unfold _setRanges. unfold bind at 1. unfold bind at 1.
  rewrite (modify_run this s0 (set_ranges []) w Hs0).
  set (w1 := stored this (set_ranges [] s0) w).
  assert (Hs1 : selections w1 !! other = Some s) by (unfold w1; by rewrite Hother).
  unfold bind at 1. unfold for_of. rewrite (bind_Return _ _ _ _ _
    (as_values_getRanges_run other s w1 Hs1)).
  destruct (add_each_accepted this 3 _ (_ranges s) (set_ranges [] s0) w1
              (Hthis _ _) (yields_getRanges (_ranges s)))
    as (added & j & Hrun & Hadded); [by apply (ordered_disjoint_accepts [])|].
  rewrite Hrun. erewrite modify_run by apply Hthis.
  rewrite stored_stored. unfold bind at 1. erewrite read_run;
    [|rewrite Hother; exact Hs1].
  unfold _setFakeOptions. erewrite modify_run by apply Hthis.
  rewrite stored_stored. exists added, j. split; [|done].
  unfold fire, notified, stored, allocated, w1. simpl.
  by rewrite insert_insert_eq.
Qed.

Lemma isCollapsed_at c s :
  range_at <$> _ranges c = range_at <$> _ranges s → isCollapsed c = isCollapsed s.
Proof.
  intros Hat. unfold isCollapsed, rangeCount.
  rewrite <- (length_fmap range_at (_ranges c)), Hat, length_fmap. f_equal.
  destruct (_ranges c) as [|rc lc], (_ranges s) as [|rs ls]; try done.
  rewrite !fmap_cons in Hat. unfold range_at at 1 3 in Hat.
  injection Hat as Hstart Hend _. simpl.
  unfold Range_isCollapsed, Position_isEqual. by rewrite Hstart, Hend.
Qed.

Lemma last_at c s rc rs :
  range_at <$> _ranges c = range_at <$> _ranges s →
  last (_ranges c) = Some rc → last (_ranges s) = Some rs →
  range_at rc = range_at rs.
Proof.
  intros Hat Hc Hs.
  assert (last (range_at <$> _ranges c) = last (range_at <$> _ranges s)) as Hlast
    by (by rewrite Hat).
  rewrite !fmap_last, Hc, Hs in Hlast. simpl in Hlast. congruence.
Qed.

(** What [_setTo] stores when handed a selection is a copy of it. *)
Lemma stored_copy_of s added :
  label_only_if_fake s →
  range_at <$> added = range_at <$> _ranges s →
  copy_of s {| _ranges := added; _lastRangeBackward := isBackward s;
               _isFake := isFake s;
               _fakeSelectionLabel := if isFake s then fakeSelectionLabel s else "" |}.
Proof.
  intros Hlabel Hat. set (c := Build_Selection _ _ _ _).
  assert (Hcollapsed : isCollapsed c = isCollapsed s) by (by apply isCollapsed_at).
  split; [done|]. split; [|split; [done|split]].
  - unfold isBackward at 1. rewrite Hcollapsed. simpl. unfold isBackward.
    by destruct (isCollapsed s).
  - simpl. unfold isFake, fakeSelectionLabel in *.
    destruct (_isFake s) eqn:Hfake; [done|]. by rewrite Hlabel.
  - intros rc rs Hc Hs. pose proof (last_at c s rc rs Hat Hc Hs) as Hlast.
    unfold anchor_at, focus_at. simpl. unfold isBackward.
    unfold range_at in Hlast. injection Hlast as Hstart Hend.
    destruct (_lastRangeBackward s); rewrite ?andb_false_r, ?andb_true_r; [|done].
    destruct (isCollapsed s) eqn:Hcoll; simpl; [|done].
    unfold isCollapsed in Hcoll. apply andb_true_iff in Hcoll as [Hone Hcoll].
    apply Nat.eqb_eq in Hone. unfold rangeCount in Hone.
    destruct (_ranges s) as [|r [|??]]; try done. simpl in Hs, Hcoll.
    injection Hs as <-. unfold Range_isCollapsed, Position_isEqual in Hcoll.
    apply bool_decide_eq_true in Hcoll. by rewrite Hstart, Hend, Hcoll.
Qed.

Lemma copy_of_equal s c :
  copy_of s c → equal_as_checked c s ∧ equal_as_checked s c.
Proof.
  intros (Hat & Hback & Hfake & Hlabel & Haf).
  assert (Hcount : rangeCount c = rangeCount s).
  { unfold rangeCount. by rewrite <- (length_fmap range_at (_ranges c)), Hat, length_fmap. }
  split.
  - refine (conj (conj Hfake (λ _, Hlabel)) (conj Hcount (conj Haf _))).
    intros r Hr.
    assert (range_at r ∈ range_at <$> _ranges s) as (r' & ? & ?)%list_elem_of_fmap.
    { rewrite <- Hat. apply list_elem_of_fmap. eauto. }
    eauto.
  - refine (conj (conj (eq_sym Hfake) (λ _, eq_sym Hlabel))
              (conj (eq_sym Hcount) (conj _ _))).
    + intros rs rc Hs Hc. destruct (Haf rc rs Hc Hs). done.
    + intros r Hr.
      assert (range_at r ∈ range_at <$> _ranges c) as (r' & ? & ?)%list_elem_of_fmap.
      { rewrite Hat. apply list_elem_of_fmap. eauto. }
      eauto.
Qed.

Lemma isEqual_true this otherSelection a b w :
  selections w !! this = Some a → selections w !! otherSelection = Some b →
  equal_as_checked a b → (isEqual this otherSelection w).1 = Return true.
Proof.
  intros Ha Hb Heq. destruct (isEqual_run _ _ _ _ w Ha Hb) as [k ->]. simpl.
  f_equal. by apply equal_as_checked_run.
Qed.

Lemma copied_to_stored w other s t c j :
  selections w !! other = Some s → t ≠ other → copy_of s c →
  copied_to w other s t (notified t (stored t c (allocated j w))).
Proof.
  intros Hs Hne Hcopy. exists c. split; [done|]. split; [done|].
  destruct (copy_of_equal s c Hcopy) as [Hcs Hsc].
  set (w' := notified t _).
  assert (selections w' !! t = Some c) by apply lookup_insert_eq.
  assert (selections w' !! other = Some s)
    by (unfold w'; simpl; by rewrite lookup_insert_ne).
  split; by eapply isEqual_true.
Qed.

(** C7. In a reachable world, a selection constructed from the selection
    at [other], and any other selection set to it with [_setTo], ends as
    a copy of it: ranges at the same ends in the same order, the same
    direction, fake flag and label, anchor and focus at the same places;
    nothing else changes, and [isEqual] returns true between the two, in
    both orders. *)
Theorem copy_of_selection_is_equal other s optionsOrPlaceOrOffset options w :
  reachable w → selections w !! other = Some s →
  (∃ t w',
      new_Selection (a_Selection other) optionsOrPlaceOrOffset options w
      = (Return t, w')
      ∧ selections w !! t = None
      ∧ copied_to w other s t w')
  ∧ (∀ this s0, selections w !! this = Some s0 → this ≠ other →
       ∃ w',
         _setTo this (a_Selection other) optionsOrPlaceOrOffset options w
         = (Return tt, w')
         ∧ copied_to w other s this w').
Proof.
  intros Hw Hs.
  pose proof (reachable_ordered_disjoint _ _ _ Hw Hs) as Hord.
  pose proof (reachable_label_only_if_fake _ _ _ Hw Hs) as Hlabel.
  pose proof (reachable_all_allocated _ Hw) as Hall.
  split.
  - assert (Hnew : selections w !! next_ref w = None).
    { destruct (selections w !! next_ref w) as [s'|] eqn:Hs'; [|done].
      destruct (Hall _ _ Hs'). lia. }
    assert (Hne : next_ref w ≠ other) by (intros Heq; by rewrite Heq, Hs in Hnew).
    set (w1 := stored (next_ref w) blank (allocated 1 w)).
    destruct (_setTo_Selection_run (next_ref w) other blank s
                optionsOrPlaceOrOffset options w1)
      as (added & j & Hrun & Hat); [apply lookup_insert_eq| |done|done|].
    { unfold w1. simpl. by rewrite lookup_insert_ne. }
    exists (next_ref w). eexists. rewrite new_Selection_run. fold w1.
    returns Hrun. split; [reflexivity|]. split; [done|].
    replace (notified _ _) with
      (notified (next_ref w) (stored (next_ref w)
         {| _ranges := added; _lastRangeBackward := isBackward s;
            _isFake := isFake s;
            _fakeSelectionLabel := if isFake s then fakeSelectionLabel s else "" |}
         (allocated (j + 1) w))).
    + apply copied_to_stored; [done..|]. by apply stored_copy_of.
    + unfold notified, stored, allocated, w1. simpl.
      rewrite insert_insert_eq. f_equal. lia.
  - intros this s0 Hs0 Hne.
    destruct (_setTo_Selection_run this other s0 s
                optionsOrPlaceOrOffset options w Hs0 Hs Hne Hord)
      as (added & j & Hrun & Hat).
    eexists. split; [exact Hrun|].
    apply copied_to_stored; [done..|]. by apply stored_copy_of.
Qed.

(** * Further properties *)

(** ** What [_setTo] and [_setFocus] refuse *)

(** X1. [_setFocus] on a selection without ranges throws
    view-selection-setFocus-no-ranges before it looks at its arguments:
    no position is made, no selection is written and nothing is fired. *)
Theorem setFocus_without_ranges_throws this s itemOrPosition offset w :
  selections w !! this = Some s → _ranges s = [] →
  _setFocus this itemOrPosition offset w
  = (Throw view_selection_setFocus_no_ranges, w).
Proof.
  intros Hs Hempty. unfold _setFocus, bind.
  by rewrite (anchor_run _ _ _ Hs), Hempty.
Qed.


(** ** What [_setTo] stores *)

Lemma _setFakeOptions_run this s options w :
  selections w !! this = Some s →
  _setFakeOptions this options w
  = (Return tt,
     stored this
       (set_fake (truthy (prop_fake options))
          (if truthy (prop_fake options) then default "" (prop_label options) else "")
          s) w).
Proof. intros Hs. unfold _setFakeOptions. by rewrite (modify_run _ _ _ _ Hs). Qed.

Lemma _setRanges_empty_run this s isLastBackward w :
  selections w !! this = Some s →
  _setRanges this (array []) isLastBackward w
  = (Return tt,
     stored this (set_lastRangeBackward isLastBackward (set_ranges [] s)) w).
Proof.
  intros Hs. unfold _setRanges. returns (modify_run this s (set_ranges []) w Hs).
  unfold bind at 1. rewrite for_of_array. simpl.
  erewrite modify_run by apply lookup_insert_eq. by rewrite stored_stored.
Qed.

Lemma _setRanges_single_run this s range isLastBackward w :
  selections w !! this = Some s →
  _setRanges this (array [a_Range range]) isLastBackward w
  = (Return tt,
     stored this
       (set_lastRangeBackward isLastBackward
          (set_ranges [range_new (next_ref w) (range_at range)] s))
       (allocated 3 w)).
Proof.
  intros Hs. unfold _setRanges. returns (modify_run this s (set_ranges []) w Hs).
  unfold bind at 1. rewrite for_of_array. simpl for_each. rewrite bind_ret.
  unfold bind at 1. erewrite _addRange_run by apply lookup_insert_eq. simpl.
  erewrite modify_run by apply lookup_insert_eq.
  unfold stored, allocated. simpl. by rewrite !insert_insert_eq.
Qed.

(** the fake flag and label that [_setFakeOptions] sets *)
Lemma set_fake_options options s :
  let s' := set_fake (truthy (prop_fake options))
              (if truthy (prop_fake options) then default "" (prop_label options)
               else "") s in
  isFake s' = truthy (prop_fake options)
  ∧ (isFake s' = false → fakeSelectionLabel s' = "").
Proof. simpl. split; [done|]. unfold isFake. simpl. by intros ->. Qed.

(** X3. [_setTo( null, options )] always returns: it leaves this
    selection without ranges and forward, whatever [options.backward]
    says, takes the fake flag from the options, and fires a change also
    when there was nothing to remove; anchor and focus are null after it. *)
Theorem setTo_null_empties this s options ignored w :
  selections w !! this = Some s →
  ∃ s' w',
    _setTo this null options ignored w = (Return tt, w')
    ∧ selections w' = <[this := s']> (selections w)
    ∧ fired w' = fired w ++ [(this, "change")]
    ∧ _ranges s' = [] ∧ isBackward s' = false
    ∧ isFake s' = truthy (prop_fake options)
    ∧ anchor this w' = (Return None, w')
    ∧ focus this w' = (Return None, w').
Proof.
  intros Hs. unfold _setTo.
  erewrite (bind_Return (bind _ _));
    [|returns (_setRanges_empty_run this s false w Hs);
      erewrite _setFakeOptions_run by apply lookup_insert_eq; reflexivity].
  rewrite stored_stored. do 2 eexists. split; [reflexivity|].
  split; [done|]. split; [done|]. split; [done|]. split; [done|]. split; [done|].
  split; [erewrite anchor_run|erewrite focus_run]; try apply lookup_insert_eq; done.
Qed.

Lemma allocated_from_new n m se : n ≤ m → allocated_from n (range_new m se).
Proof. unfold allocated_from. simpl. lia. Qed.

(** X4. [_setTo( range, options )] always returns, whatever ranges were
    stored: the one range it leaves is a copy of [range], made of new
    objects; the selection is backward if [options.backward] is truthy
    and the range is not collapsed, and then the anchor is at the end of
    the range and the focus at its start, otherwise the other way round. *)
Theorem setTo_range_stores_copy this s range options ignored w :
  selections w !! this = Some s →
  ∃ copy s' w',
    _setTo this (single_Range range) options ignored w = (Return tt, w')
    ∧ selections w' = <[this := s']> (selections w)
    ∧ fired w' = fired w ++ [(this, "change")]
    ∧ _ranges s' = [copy] ∧ range_at copy = range_at range
    ∧ allocated_from (next_ref w) copy
    ∧ isBackward s'
      = truthy (prop_backward options) && negb (Range_isCollapsed range)
    ∧ anchor_at s' copy
      = pos_at (if truthy (prop_backward options) then end_ range else start range)
    ∧ focus_at s' copy
      = pos_at (if truthy (prop_backward options) then start range else end_ range)
    ∧ isFake s' = truthy (prop_fake options).
Proof.
  intros Hs. unfold _setTo.
  erewrite (bind_Return (bind _ _));
    [|returns (_setRanges_single_run this s range
                 (truthy (prop_backward options)) w Hs);
      erewrite _setFakeOptions_run by apply lookup_insert_eq; reflexivity].
  rewrite stored_stored. do 3 eexists. split; [reflexivity|].
  split; [done|]. split; [done|]. split; [reflexivity|].
  split; [apply range_at_new|]. split; [by apply allocated_from_new|].
  split; [|split; [|split]]; [| | |done].
  - unfold isBackward, isCollapsed, Range_isCollapsed, Position_isEqual. simpl.
    apply andb_comm.
  - unfold anchor_at. simpl. by destruct (truthy _).
  - unfold focus_at. simpl. by destruct (truthy _).
Qed.

(** X5. [_setTo( position )] always returns and leaves one collapsed
    range at the position: the selection is collapsed and not backward,
    whatever the options say, and anchor and focus are both at the
    position. *)
Theorem setTo_position_collapses this s position options ignored w :
  selections w !! this = Some s →
  ∃ copy s' w',
    _setTo this (a_Position position) options ignored w = (Return tt, w')
    ∧ selections w' = <[this := s']> (selections w)
    ∧ fired w' = fired w ++ [(this, "change")]
    ∧ _ranges s' = [copy]
    ∧ range_at copy = (pos_at position, pos_at position)
    ∧ isCollapsed s' = true ∧ isBackward s' = false
    ∧ anchor_at s' copy = pos_at position ∧ focus_at s' copy = pos_at position.
Proof.
  intros Hs. unfold _setTo.
  erewrite (bind_Return (bind _ _));
    [|returns (new_Range_run position position w);
      erewrite (bind_Return (_setRanges _ _ _));
        [|by apply (_setRanges_single_run this s)];
      erewrite _setFakeOptions_run by apply lookup_insert_eq; reflexivity].
  rewrite stored_stored. do 3 eexists. split; [reflexivity|].
  split; [done|]. split; [done|]. split; [reflexivity|].
  rewrite !range_at_new. split; [done|].
  unfold isBackward, isCollapsed, Range_isCollapsed, Position_isEqual,
    anchor_at, focus_at. simpl. by rewrite bool_decide_eq_true_2.
Qed.

(** Ranges of which one fails the check make the loop of [_setRanges]
    throw, without an event. *)
Lemma add_each_rejected this rs s w :
  selections w !! this = Some s →
  ¬ accepts (range_at <$> _ranges s) rs →
  ∃ e w',
    for_each (ret <$> (a_Range <$> rs)) (λ range, _addRange this range false) w
    = (Throw e, w')
    ∧ fired w' = fired w
    ∧ ∀ o, o ≠ this → selections w' !! o = selections w !! o.
Proof.
  revert s w. induction rs as [|r rs IH]; intros s w Hs Hno; [by destruct Hno|].
  rewrite !fmap_cons. simpl for_each. rewrite bind_ret. unfold bind at 1.
  rewrite (_addRange_run _ _ _ _ _ Hs).
  destruct (first_intersecting r (_ranges s)) as [[i st]|] eqn:Hfind;
    [by do 2 eexists|].
  set (s1 := set_lastRangeBackward false _).
  destruct (IH s1 (stored this s1 (allocated 3 w))) as (e & w' & Hrun & Hfired & Hother).
  { apply lookup_insert_eq. }
  { intros Hrest. apply Hno. split.
    - intros o (st & -> & Hst)%list_elem_of_fmap.
      rewrite first_intersecting_None in Hfind. apply (Hfind st Hst).
    - unfold s1 in Hrest. cbn [_ranges set_ranges set_lastRangeBackward] in Hrest.
      by rewrite fmap_app, fmap_cons, range_at_new in Hrest. }
  exists e, w'. split; [done|]. split; [done|].
  intros o Ho. rewrite (Hother o Ho). simpl. by rewrite lookup_insert_ne.
Qed.

(** [_setTo] on a list of ranges that pass the check *)
Lemma _setTo_ranges_run this s rs options ignored w :
  selections w !! this = Some s → accepts [] rs →
  ∃ s' w',
    _setTo this (an_iterable (a_Range <$> rs)) options ignored w = (Return tt, w')
    ∧ selections w' = <[this := s']> (selections w)
    ∧ fired w' = fired w ++ [(this, "change")]
    ∧ range_at <$> _ranges s' = range_at <$> rs
    ∧ _lastRangeBackward s' = truthy (prop_backward options)
    ∧ isFake s' = truthy (prop_fake options).
Proof.
  intros Hs Hrs. unfold _setTo, _setRanges.
  set (w0 := stored this (set_ranges [] s) w).
  assert (Hs0 : selections w0 !! this = Some (set_ranges [] s))
    by apply lookup_insert_eq.
  destruct (add_each_accepted this 0 _ rs (set_ranges [] s) w0 Hs0
              (yields_array rs) Hrs) as (added & j & Hrun & Hadded).
  erewrite (bind_Return (bind _ _)).
  2:{ erewrite (bind_Return (bind _ _)).
      2:{ returns (modify_run this s (set_ranges []) w Hs). fold w0.
          unfold bind at 1. rewrite for_of_array, Hrun.
          erewrite modify_run by apply lookup_insert_eq. reflexivity. }
      erewrite _setFakeOptions_run by apply lookup_insert_eq. reflexivity. }
  rewrite !stored_stored. do 2 eexists. split; [reflexivity|].
  split; [unfold w0; simpl; by rewrite insert_insert_eq|].
  split; [done|]. by split.
Qed.

(** X6. [_setTo( ranges, options )] on a list of ranges returns exactly
    when each range, in order, intersects none of those before it in the
    list; the ranges stored before the call play no part.  It then holds
    copies of the ranges in that order, with the direction flag from
    [options.backward], and has fired one change; when it throws it has
    fired none. *)
Theorem setTo_ranges_returns_iff_accepted this s rs options ignored w :
  selections w !! this = Some s →
  (accepts [] rs →
   ∃ s' w',
     _setTo this (an_iterable (a_Range <$> rs)) options ignored w = (Return tt, w')
     ∧ selections w' = <[this := s']> (selections w)
     ∧ fired w' = fired w ++ [(this, "change")]
     ∧ range_at <$> _ranges s' = range_at <$> rs
     ∧ _lastRangeBackward s' = truthy (prop_backward options)
     ∧ isFake s' = truthy (prop_fake options))
  ∧ (¬ accepts [] rs →
     ∃ e w',
       _setTo this (an_iterable (a_Range <$> rs)) options ignored w = (Throw e, w')
       ∧ fired w' = fired w).
Proof.
  intros Hs. split; intros Hrs; [by apply (_setTo_ranges_run this s)|].
  unfold _setTo, _setRanges.
  set (w0 := stored this (set_ranges [] s) w).
  assert (Hs0 : selections w0 !! this = Some (set_ranges [] s))
    by apply lookup_insert_eq.
  destruct (add_each_rejected this rs (set_ranges [] s) w0 Hs0 Hrs)
    as (e & w' & Hrun & Hfired & _).
  exists e, w'. split; [|done].
  unfold bind at 1. unfold bind at 1. unfold bind at 1.
  rewrite (modify_run this s (set_ranges []) w Hs). fold w0.
  unfold bind at 1. by rewrite for_of_array, Hrun.
Qed.

(** ** Reading the ranges *)

Lemma collect_copies_run (l : list Range) w :
  ∃ yielded,
    collect (Range_createFromRange <$> l) w
    = (Return yielded, allocated (3 * length l) w)
    ∧ range_at <$> yielded = range_at <$> l
    ∧ Forall (allocated_from (next_ref w)) yielded.
Proof.
  revert w. induction l as [|r l IH]; intros w.
  - exists []. simpl. by rewrite allocated_0.
  - destruct (IH (allocated 3 w)) as (yielded & Hrun & Hat & Hnew).
    exists (range_new (next_ref w) (range_at r) :: yielded).
    rewrite fmap_cons. cbn [collect].
    returns (Range_createFromRange_run r w). returns Hrun.
    rewrite allocated_allocated. split; [|split].
    + unfold ret. do 2 f_equal. simpl. lia.
    + by rewrite !fmap_cons, range_at_new, Hat.
    + constructor; [by apply allocated_from_new|].
      eapply Forall_impl; [done|]. unfold allocated_from. simpl. lia.
Qed.

Lemma allocated_from_below n r r' x :
  allocated_from n r → range_below n r' → x ∈ refs_of r → x ∉ refs_of r'.
Proof.
  unfold allocated_from, range_below, refs_of. intros (? & ? & ?) (? & ? & ?).
  rewrite !elem_of_cons, !elem_of_nil.
  intros [->|[->|[->|[]]]] [?|[?|[?|[]]]]; lia.
Qed.

(** X7. Running [getRanges] to its end yields one range for each stored
    range, at the same ends and in the order of insertion, changes no
    selection and fires nothing; in a reachable world every range it
    yields is made of new objects: none is, or holds a position of, a
    range that a selection stores. *)
Theorem getRanges_yields_copies w this s :
  reachable w → selections w !! this = Some s →
  ∃ yielded w',
    Array_from (getRanges this) w = (Return yielded, w')
    ∧ range_at <$> yielded = range_at <$> _ranges s
    ∧ selections w' = selections w ∧ fired w' = fired w
    ∧ ∀ r o so r' x,
        r ∈ yielded → selections w !! o = Some so → r' ∈ _ranges so →
        x ∈ refs_of r → x ∉ refs_of r'.
Proof.
  intros Hw Hs. apply reachable_all_allocated in Hw.
  destruct (collect_copies_run (_ranges s) w) as (yielded & Hrun & Hat & Hnew).
  exists yielded, (allocated (3 * length (_ranges s)) w).
  split; [unfold Array_from; by returns (getRanges_run _ _ w Hs)|].
  split; [done|]. split; [done|]. split; [done|].
  intros r o so r' x Hr Hso Hr'. rewrite Forall_forall in Hnew.
  destruct (Hw o so Hso) as [_ Hbelow]. rewrite Forall_forall in Hbelow.
  eapply allocated_from_below; eauto.
Qed.

(** X8. Round trip: after [_setTo] has returned on a list of ranges,
    [getRanges] yields ranges at the same ends as those of the list, in
    the same order. *)
Theorem setTo_then_getRanges this s rs options ignored w :
  selections w !! this = Some s → accepts [] rs →
  ∃ w' yielded w'',
    _setTo this (an_iterable (a_Range <$> rs)) options ignored w = (Return tt, w')
    ∧ Array_from (getRanges this) w' = (Return yielded, w'')
    ∧ range_at <$> yielded = range_at <$> rs.
Proof.
  intros Hs Hrs.
  destruct (_setTo_ranges_run this s rs options ignored w Hs Hrs)
    as (s' & w' & Hrun & Hsel & _ & Hat & _).
  assert (Hs' : selections w' !! this = Some s')
    by (rewrite Hsel; apply lookup_insert_eq).
  destruct (collect_copies_run (_ranges s') w') as (yielded & Hcollect & Hyielded & _).
  exists w', yielded. eexists. split; [done|]. split.
  - unfold Array_from. returns (getRanges_run _ _ w' Hs'). exact Hcollect.
  - by rewrite Hyielded.
Qed.

(** ** The first and the last range *)


(** The loops keep the range that the given relation puts before all
    those seen, when the relation is irreflexive and transitive. *)
Section extreme.
Variable relation : string.
Hypothesis irreflexive : ∀ p, compareWith p p ≠ relation.
Hypothesis transitive : ∀ p q r,
  compareWith p q = relation → compareWith q r = relation →
  compareWith p r = relation.

Lemma first_of_least seen f0 l :
  relation = "before" →
  f0 ∈ seen →
  (∀ r, r ∈ seen → compareWith (pos_at (start r)) (pos_at (start f0)) ≠ "before") →
  ∃ f, first_of (Some f0) l = Some f ∧ f ∈ seen ++ l
       ∧ ∀ r, r ∈ seen ++ l →
           compareWith (pos_at (start r)) (pos_at (start f)) ≠ "before".
Proof.
  intros ->. revert seen f0. induction l as [|x l IH]; intros seen f0 Hf0 Hleast.
  - exists f0. rewrite app_nil_r. done.
  - simpl. unfold Position_isBefore, Position_compareWith.
    destruct (String.eqb _ "before") eqn:Hx.
    + apply String.eqb_eq in Hx.
      destruct (IH (seen ++ [x]) x) as (f & Hf & Hin & Hmin).
      { apply elem_of_app. right. apply list_elem_of_here. }
      { intros r [Hr|Hr%list_elem_of_singleton]%elem_of_app.
        - intros Hrx. by apply (Hleast r Hr), (transitive _ _ _ Hrx).
        - subst r. apply irreflexive. }
      exists f. by rewrite <- (assoc_L (++)) in Hin, Hmin.
    + apply String.eqb_neq in Hx.
      destruct (IH (seen ++ [x]) f0) as (f & Hf & Hin & Hmin).
      { apply elem_of_app. by left. }
      { intros r [Hr|Hr%list_elem_of_singleton]%elem_of_app; [by apply Hleast|].
        by subst r. }
      exists f. by rewrite <- (assoc_L (++)) in Hin, Hmin.
Qed.

Lemma last_of_greatest seen f0 l :
  relation = "after" →
  f0 ∈ seen →
  (∀ r, r ∈ seen → compareWith (pos_at (end_ r)) (pos_at (end_ f0)) ≠ "after") →
  ∃ f, last_of (Some f0) l = Some f ∧ f ∈ seen ++ l
       ∧ ∀ r, r ∈ seen ++ l →
           compareWith (pos_at (end_ r)) (pos_at (end_ f)) ≠ "after".
Proof.
  intros ->. revert seen f0. induction l as [|x l IH]; intros seen f0 Hf0 Hleast.
  - exists f0. rewrite app_nil_r. done.
  - simpl. unfold Position_isAfter, Position_compareWith.
    destruct (String.eqb _ "after") eqn:Hx.
    + apply String.eqb_eq in Hx.
      destruct (IH (seen ++ [x]) x) as (f & Hf & Hin & Hmin).
      { apply elem_of_app. right. apply list_elem_of_here. }
      { intros r [Hr|Hr%list_elem_of_singleton]%elem_of_app.
        - intros Hrx. by apply (Hleast r Hr), (transitive _ _ _ Hrx).
        - subst r. apply irreflexive. }
      exists f. by rewrite <- (assoc_L (++)) in Hin, Hmin.
    + apply String.eqb_neq in Hx.
      destruct (IH (seen ++ [x]) f0) as (f & Hf & Hin & Hmin).
      { apply elem_of_app. by left. }
      { intros r [Hr|Hr%list_elem_of_singleton]%elem_of_app; [by apply Hleast|].
        by subst r. }
      exists f. by rewrite <- (assoc_L (++)) in Hin, Hmin.
Qed.

End extreme.

(** X9. [getFirstRange] and [getFirstPosition] return null on a selection
    without ranges.  Otherwise, 'before' being irreflexive and transitive,
    [getFirstRange] returns a copy, made of new objects, of a stored
    range that no stored range starts before, and [getFirstPosition] a
    position at the start of that range; neither changes a selection. *)
Theorem getFirstRange_starts_first this s w :
  selections w !! this = Some s →
  (∀ p, compareWith p p ≠ "before") →
  (∀ p q r, compareWith p q = "before" → compareWith q r = "before" →
            compareWith p r = "before") →
  (_ranges s = [] →
   getFirstRange this w = (Return None, w)
   ∧ getFirstPosition this w = (Return None, w))
  ∧ (_ranges s ≠ [] →
     ∃ first copy position,
       first ∈ _ranges s
       ∧ (∀ r, r ∈ _ranges s →
            compareWith (pos_at (start r)) (pos_at (start first)) ≠ "before")
       ∧ getFirstRange this w = (Return (Some copy), allocated 3 w)
       ∧ range_at copy = range_at first
       ∧ allocated_from (next_ref w) copy
       ∧ getFirstPosition this w = (Return (Some position), allocated 4 w)
       ∧ pos_at position = pos_at (start first)).
Proof.
  intros Hs Hirr Htrans. unfold getFirstPosition, getFirstRange. split.
  - intros Hempty. unfold bind. by rewrite (read_run _ _ _ Hs), Hempty.
  - intros Hsome. destruct (_ranges s) as [|r0 l] eqn:Hl; [done|].
    destruct (first_of_least "before" Hirr Htrans [r0] r0 l eq_refl)
      as (first & Hfirst & Hin & Hleast).
    { apply list_elem_of_here. }
    { intros r ->%list_elem_of_singleton. apply Hirr. }
    exists first, (range_new (next_ref w) (range_at first)).
    eexists. split; [done|]. split; [done|].
    assert (Hrun : (let! s := read this in
                    match first_of None (_ranges s) with
                    | Some first =>
                        let! copy := Range_createFromRange first in ret (Some copy)
                    | None => ret None
                    end) w
                   = (Return (Some (range_new (next_ref w) (range_at first))),
                      allocated 3 w)).
    { returns (read_run _ _ w Hs). rewrite Hl.
      change (first_of None (r0 :: l)) with (first_of (Some r0) l).
      by rewrite Hfirst. }
    split; [done|]. split; [apply range_at_new|].
    split; [by apply allocated_from_new|].
    returns Hrun. by split.
Qed.

(** X10. [getLastRange] and [getLastPosition] return null on a selection
    without ranges.  Otherwise, 'after' being irreflexive and transitive,
    [getLastRange] returns a copy, made of new objects, of a stored range
    that no stored range ends after, and [getLastPosition] a position at
    the end of that range; neither changes a selection. *)
Theorem getLastRange_ends_last this s w :
  selections w !! this = Some s →
  (∀ p, compareWith p p ≠ "after") →
  (∀ p q r, compareWith p q = "after" → compareWith q r = "after" →
            compareWith p r = "after") →
  (_ranges s = [] →
   getLastRange this w = (Return None, w)
   ∧ getLastPosition this w = (Return None, w))
  ∧ (_ranges s ≠ [] →
     ∃ last copy position,
       last ∈ _ranges s
       ∧ (∀ r, r ∈ _ranges s →
            compareWith (pos_at (end_ r)) (pos_at (end_ last)) ≠ "after")
       ∧ getLastRange this w = (Return (Some copy), allocated 3 w)
       ∧ range_at copy = range_at last
       ∧ allocated_from (next_ref w) copy
       ∧ getLastPosition this w = (Return (Some position), allocated 4 w)
       ∧ pos_at position = pos_at (end_ last)).
Proof.
  intros Hs Hirr Htrans. unfold getLastPosition, getLastRange. split.
  - intros Hempty. unfold bind. by rewrite (read_run _ _ _ Hs), Hempty.
  - intros Hsome. destruct (_ranges s) as [|r0 l] eqn:Hl; [done|].
    destruct (last_of_greatest "after" Hirr Htrans [r0] r0 l eq_refl)
      as (last & Hlast & Hin & Hgreatest).
    { apply list_elem_of_here. }
    { intros r ->%list_elem_of_singleton. apply Hirr. }
    exists last, (range_new (next_ref w) (range_at last)).
    eexists. split; [done|]. split; [done|].
    assert (Hrun : (let! s := read this in
                    match last_of None (_ranges s) with
                    | Some last =>
                        let! copy := Range_createFromRange last in ret (Some copy)
                    | None => ret None
                    end) w
                   = (Return (Some (range_new (next_ref w) (range_at last))),
                      allocated 3 w)).
    { returns (read_run _ _ w Hs). rewrite Hl.
      change (last_of None (r0 :: l)) with (last_of (Some r0) l).
      by rewrite Hlast. }
    split; [done|]. split; [apply range_at_new|].
    split; [by apply allocated_from_new|].
    returns Hrun. by split.
Qed.

(** ** What the methods leave alone *)

Section stepping.
Variable R : World → World → Prop.
Variable this : ref.
Variable ok : (Selection → Selection) → Prop.
Hypothesis R_refl : ∀ w, R w w.
Hypothesis R_trans : ∀ w1 w2 w3, R w1 w2 → R w2 w3 → R w1 w3.
Hypothesis R_allocated : ∀ k w, R w (allocated k w).
Hypothesis R_modified : ∀ f s w,
  ok f → selections w !! this = Some s → R w (stored this (f s) w).
Hypothesis ok_ranges : ∀ g : Selection → list Range, ok (λ s, set_ranges (g s) s).
Hypothesis ok_direction : ∀ b, ok (set_lastRangeBackward b).

Lemma steps_allocates {A} (m : M A) : allocates m → steps R m.
Proof. intros Hm w. destruct (Hm w) as [k ->]. apply R_allocated. Qed.

Lemma steps_bind {A B} (m : M A) (k : A → M B) :
  steps R m → (∀ a, steps R (k a)) → steps R (bind m k).
Proof.
  intros Hm Hk w. unfold bind. specialize (Hm w).
  destruct (m w) as [[a|e] w1]; simpl in *; [|done].
  eapply R_trans; [done|apply Hk].
Qed.

Lemma steps_modify f : ok f → steps R (modify this f).
Proof.
  intros Hf w. destruct (selections w !! this) as [s|] eqn:Hs.
  - rewrite (modify_run _ _ _ _ Hs). by apply R_modified.
  - unfold modify. rewrite (bind_Throw _ _ _ _ _ (read_missing _ _ Hs)). apply R_refl.
Qed.

Lemma steps_for_each {A} (items : list (M A)) body :
  Forall (steps R) items → (∀ x, steps R (body x)) →
  steps R (for_each items body).
Proof.
  intros Hitems Hbody. induction Hitems; simpl.
  - apply steps_allocates, allocates_ret.
  - repeat (apply steps_bind; [|intros ?]); auto.
Qed.

Lemma steps_for_of {A} (it : Iterable A) body :
  iterable_steps R it → (∀ x, steps R (body x)) → steps R (for_of it body).
Proof.
  intros Hit Hbody w. unfold for_of, bind. destruct (Hit w) as [Hw1 Hitems].
  destruct (it w) as [[items|e] w1]; simpl in *; [|done].
  eapply R_trans; [done|]. apply steps_for_each; auto.
Qed.

Lemma iterable_steps_array {A} (l : list A) : iterable_steps R (array l).
Proof.
  intros w. split; [apply R_refl|]. intros items [= <-].
  apply Forall_fmap, Forall_true. intros x. apply steps_allocates, allocates_ret.
Qed.

Lemma iterable_steps_getRanges other :
  iterable_steps R (as_values (getRanges other)).
Proof.
  intros w. unfold as_values, getRanges, bind, read.
  destruct (selections w !! other) as [s|]; simpl; [|split; [apply R_refl|done]].
  split; [apply R_refl|]. intros items [= <-].
  apply Forall_fmap, Forall_fmap, Forall_true. intros r. cbv beta.
  apply steps_allocates, allocates_bind; [apply allocates_new_Range|].
  intros c. apply allocates_ret.
Qed.

Lemma steps__pushRange range : steps R (_pushRange this range).
Proof.
  unfold _pushRange. apply steps_bind; [apply steps_allocates, allocates_read|].
  intros s. apply steps_bind.
  - apply steps_for_of; [apply iterable_steps_array|]. intros st.
    apply steps_allocates. destruct (Range_isIntersecting range st);
      [apply allocates_throw|apply allocates_ret].
  - intros _. apply steps_bind; [apply steps_allocates, allocates_new_Range|].
    intros copy. apply steps_modify. exact (ok_ranges (λ s, _ranges s ++ [copy])).
Qed.

Lemma steps__addRange range isBackward : steps R (_addRange this range isBackward).
Proof.
  destruct range as [range|]; simpl.
  - apply steps_bind; [apply steps__pushRange|intros _].
    apply steps_modify, ok_direction.
  - apply steps_allocates, allocates_throw.
Qed.

Lemma steps__setRanges newRanges isLastBackward :
  iterable_steps R newRanges → steps R (_setRanges this newRanges isLastBackward).
Proof.
  intros Hit. unfold _setRanges.
  apply steps_bind; [apply steps_modify; exact (ok_ranges (λ _, []))|intros _].
  apply steps_bind; [|intros _; apply steps_modify, ok_direction].
  apply steps_for_of; [done|]. intros x. apply steps__addRange.
Qed.

Lemma outcome_steps (m : M unit) : steps R m → outcome R this m.
Proof.
  intros Hm w. specialize (Hm w). destruct (m w) as [[[]|e] w1]; simpl in Hm;
    exists w1; (split; [done|]); [by right; left|left; by exists e].
Qed.

Lemma outcome_bind {A} (m : M A) (k : A → M unit) :
  steps R m → (∀ a, outcome R this (k a)) → outcome R this (bind m k).
Proof.
  intros Hm Hk w. unfold bind. specialize (Hm w).
  destruct (m w) as [[a|e] w1]; simpl in Hm.
  - destruct (Hk a w1) as (w2 & Hw2 & Hcases). exists w2. split; [eauto|done].
  - exists w1. split; [done|]. left. by exists e.
Qed.

Lemma outcome_fire (m : M unit) :
  steps R m → outcome R this (m ;; fire this "change").
Proof.
  intros Hm w. unfold bind. specialize (Hm w).
  destruct (m w) as [[[]|e] w1]; simpl in Hm;
    exists w1; (split; [done|]); [by right; right|left; by exists e].
Qed.

(** [_setFocus]: the change is fired last, if at all *)
Lemma outcome__setFocus itemOrPosition offset :
  outcome R this (_setFocus this itemOrPosition offset).
Proof.
  unfold _setFocus.
  apply outcome_bind; [apply steps_allocates, allocates_anchor|].
  intros [a|]; [|apply outcome_steps, steps_allocates, allocates_throw].
  apply outcome_bind; [apply steps_allocates, allocates_Position_createAt|].
  intros newFocus.
  apply outcome_bind; [apply steps_allocates, allocates_focus|].
  intros [f|]; [|apply outcome_steps, steps_allocates, allocates_throw].
  destruct (String.eqb _ "same");
    [apply outcome_steps, steps_allocates, allocates_ret|].
  apply outcome_bind; [apply steps_allocates, allocates_anchor|].
  intros [anchor|]; [|apply outcome_steps, steps_allocates, allocates_throw].
  apply outcome_bind.
  { apply steps_modify.
    exact (ok_ranges (λ s, take (length (_ranges s) - 1) (_ranges s))). }
  intros _. apply outcome_fire.
  destruct (String.eqb _ "before");
    (apply steps_bind; [apply steps_allocates, allocates_new_Range|]);
    intros range; apply steps__addRange.
Qed.

Hypothesis ok_fake : ∀ b l, ok (set_fake b l).

Lemma steps__setFakeOptions options : steps R (_setFakeOptions this options).
Proof. apply steps_modify, ok_fake. Qed.

(** [_setTo], but for the change it fires *)
Lemma steps__setTo_body selectable optionsOrPlaceOrOffset options w :
  ∃ w1, R w w1
    ∧ (_setTo this selectable optionsOrPlaceOrOffset options w
       = (Return tt, notified this w1)
       ∨ ∃ e, _setTo this selectable optionsOrPlaceOrOffset options w = (Throw e, w1)).
Proof.
  unfold _setTo. set (body := match selectable with null => _ | _ => _ end).
  assert (Hbody : steps R body).
  { unfold body. destruct selectable as [|other|range|position|node|l|].
    - apply steps_bind; [|intros _; apply steps__setFakeOptions].
      apply steps__setRanges, iterable_steps_array.
    - apply steps_bind; [apply steps_allocates, allocates_read|intros s].
      apply steps_bind;
        [apply steps__setRanges, iterable_steps_getRanges|intros _].
      apply steps_bind; [apply steps_allocates, allocates_read|intros s'].
      apply steps__setFakeOptions.
    - apply steps_bind; [|intros _; apply steps__setFakeOptions].
      apply steps__setRanges, iterable_steps_array.
    - apply steps_bind; [apply steps_allocates, allocates_new_Range|].
      intros range.
      apply steps_bind; [|intros _; apply steps__setFakeOptions].
      apply steps__setRanges, iterable_steps_array.
    - cbv zeta. apply steps_bind.
      + apply steps_allocates.
        unfold Range_createIn, Range_createOn, Range_createCollapsedAt.
        repeat case_match; auto 6 with allocates.
      + intros range.
        apply steps_bind; [|intros _; apply steps__setFakeOptions].
        apply steps__setRanges, iterable_steps_array.
    - apply steps_bind; [|intros _; apply steps__setFakeOptions].
      apply steps__setRanges, iterable_steps_array.
    - apply steps_allocates, allocates_throw. }
  unfold bind. specialize (Hbody w).
  destruct (body w) as [[[]|e] w1]; simpl in Hbody; exists w1; (split; [done|]).
  - by left.
  - right. by exists e.
Qed.

End stepping.

Lemma within_refl this w : within this w w.
Proof. done. Qed.

Lemma within_trans this w1 w2 w3 :
  within this w1 w2 → within this w2 w3 → within this w1 w3.
Proof.
  intros [Hf1 Ho1] [Hf2 Ho2]. split; [congruence|].
  intros o Ho. by rewrite Ho2, Ho1.
Qed.

Lemma within_allocated this k w : within this w (allocated k w).
Proof. done. Qed.

Lemma within_stored this s w : within this w (stored this s w).
Proof. split; [done|]. intros o Ho. simpl. by rewrite lookup_insert_ne. Qed.

Lemma keeping_fake_refl this w : within_keeping_fake this w w.
Proof. split; [done|]. intros s Hs. by exists s. Qed.

Lemma keeping_fake_trans this w1 w2 w3 :
  within_keeping_fake this w1 w2 → within_keeping_fake this w2 w3 →
  within_keeping_fake this w1 w3.
Proof.
  intros [H1 K1] [H2 K2]. split; [by eapply within_trans|].
  intros s Hs. destruct (K1 s Hs) as (s1 & Hs1 & Hf1 & Hl1).
  destruct (K2 s1 Hs1) as (s2 & Hs2 & Hf2 & Hl2).
  exists s2. split; [done|]. split; congruence.
Qed.

Lemma keeping_fake_allocated this k w : within_keeping_fake this w (allocated k w).
Proof. split; [done|]. intros s Hs. by exists s. Qed.

Lemma keeping_fake_stored this f s w :
  leaves_fake f → selections w !! this = Some s →
  within_keeping_fake this w (stored this (f s) w).
Proof.
  intros Hf Hs. split; [apply within_stored|]. intros s0 Hs0.
  exists (f s). split; [apply lookup_insert_eq|].
  assert (s0 = s) as -> by congruence. apply Hf.
Qed.

(** X11. Whatever it is given, [_setTo] writes to no selection but its
    own, and fires one change when it returns and none when it throws. *)
Theorem setTo_fires_once_iff_returns this selectable optionsOrPlaceOrOffset
    options w :
  let out := _setTo this selectable optionsOrPlaceOrOffset options w in
  (∀ o, o ≠ this → selections out.2 !! o = selections w !! o)
  ∧ (out.1 = Return tt ∧ fired out.2 = fired w ++ [(this, "change")]
     ∨ (∃ e, out.1 = Throw e) ∧ fired out.2 = fired w).
Proof.
  destruct (steps__setTo_body (within this) this (λ _, True)
              (within_refl this) (within_trans this) (within_allocated this)
              (λ f s v _ _, within_stored this (f s) v)
              (λ _, I) (λ _, I) (λ _ _, I)
              selectable optionsOrPlaceOrOffset options w)
    as (w1 & [Hfired Hothers] & [->|[e ->]]); simpl.
  - split; [done|]. left. by rewrite Hfired.
  - split; [done|]. right. split; [by exists e|done].
Qed.

(** X12. Constructing a selection in a reachable world changes none of
    the selections that exist: the new one is at a reference that none of
    them has, which is what the constructor returns if it does, after one
    change fired on the new selection; nothing is fired if it throws. *)
Theorem new_Selection_leaves_others w selectable optionsOrPlaceOrOffset options :
  reachable w →
  let out := new_Selection selectable optionsOrPlaceOrOffset options w in
  selections w !! next_ref w = None
  ∧ (∀ o s, selections w !! o = Some s → selections out.2 !! o = Some s)
  ∧ (out.1 = Return (next_ref w)
       ∧ fired out.2 = fired w ++ [(next_ref w, "change")]
     ∨ (∃ e, out.1 = Throw e) ∧ fired out.2 = fired w).
Proof.
  intros Hw. cbv zeta. rewrite new_Selection_run.
  assert (Hfresh : selections w !! next_ref w = None).
  { destruct (selections w !! next_ref w) as [s|] eqn:Hs; [|done].
    destruct (reachable_all_allocated w Hw _ _ Hs). lia. }
  split; [done|].
  set (w0 := stored (next_ref w) blank (allocated 1 w)).
  destruct (steps__setTo_body (within (next_ref w)) (next_ref w) (λ _, True)
              (within_refl _) (within_trans _) (within_allocated _)
              (λ f s v _ _, within_stored _ (f s) v)
              (λ _, I) (λ _, I) (λ _ _, I)
              selectable optionsOrPlaceOrOffset options w0)
    as (w1 & [Hfired Hothers] & Hrun).
  assert (Hkept : ∀ o s, selections w !! o = Some s → selections w1 !! o = Some s).
  { intros o s Hs. rewrite Hothers by congruence.
    unfold w0. simpl. rewrite lookup_insert_ne by congruence. done. }
  unfold bind. destruct Hrun as [->|[e ->]]; simpl.
  - split; [done|]. left. by rewrite Hfired.
  - split; [done|]. right. split; [by exists e|done].
Qed.

(** X13. However it ends, [_setFocus] writes to no selection but its own,
    whose fake flag and label it keeps, and it fires at most one change,
    and none when it throws. *)
Theorem setFocus_keeps_fake_and_others this s itemOrPosition offset w :
  selections w !! this = Some s →
  let out := _setFocus this itemOrPosition offset w in
  (∀ o, o ≠ this → selections out.2 !! o = selections w !! o)
  ∧ (∃ s', selections out.2 !! this = Some s'
           ∧ isFake s' = isFake s ∧ fakeSelectionLabel s' = fakeSelectionLabel s)
  ∧ ((∃ e, out.1 = Throw e) ∧ fired out.2 = fired w
     ∨ out.1 = Return tt
       ∧ (fired out.2 = fired w ∨ fired out.2 = fired w ++ [(this, "change")])).
Proof.
  intros Hs.
  destruct (outcome__setFocus (within_keeping_fake this) this leaves_fake
              (keeping_fake_refl this) (keeping_fake_trans this)
              (keeping_fake_allocated this) (keeping_fake_stored this)
              (λ _ _, conj eq_refl eq_refl) (λ _ _, conj eq_refl eq_refl)
              itemOrPosition offset w)
    as (w1 & [[Hfired Hothers] Hfake] & [[e ->]|[->| ->]]); simpl;
    (split; [done|]); (split; [by apply Hfake|]).
  - left. split; [by exists e|done].
  - right. split; [done|]. by left.
  - right. split; [done|]. right. by rewrite Hfired.
Qed.

(** X14. A selection set to itself loses its ranges: the generator of
    [getRanges] reads [_ranges] after [_setRanges] has emptied it.  The
    direction, the fake flag and the label of a fake selection are kept,
    and a change is fired. *)
Theorem setTo_itself_empties this s optionsOrPlaceOrOffset options w :
  selections w !! this = Some s →
  _setTo this (a_Selection this) optionsOrPlaceOrOffset options w
  = (Return tt,
     notified this
       (stored this
          {| _ranges := []; _lastRangeBackward := isBackward s;
             _isFake := isFake s;
             _fakeSelectionLabel := if isFake s then fakeSelectionLabel s else "" |}
          w)).
Proof.
  intros Hs. unfold _setTo.
  assert (Hthis : ∀ c v, selections (stored this c v) !! this = Some c).
  { intros c v. apply lookup_insert_eq. }
  unfold bind at 1. unfold bind at 1. rewrite (read_run _ _ w Hs).
  unfold _setRanges. unfold bind at 1. unfold bind at 1.
  rewrite (modify_run this s (set_ranges []) w Hs).
  unfold bind at 1. unfold for_of.
  rewrite (bind_Return _ _ _ _ _
    (as_values_getRanges_run this _ _ (Hthis (set_ranges [] s) w))).
  simpl for_each. unfold ret at 1.
  erewrite modify_run by apply Hthis. rewrite stored_stored.
  unfold bind at 1. erewrite read_run by apply Hthis.
  unfold _setFakeOptions. erewrite modify_run by apply Hthis.
  rewrite stored_stored. done.
Qed.

(** ** Setting to an item *)

Lemma placed_run node place se w :
  placed node place = Some se →
  ∃ range k,
    match place with
    | undefined => throw view_selection_setTo_required_second_parameter
    | a_string "in" => Range_createIn node
    | a_string "on" => Range_createOn node
    | _ => Range_createCollapsedAt node place
    end w = (Return range, allocated k w)
    ∧ range_at range = se.
Proof.
  assert (Hfactory : ∀ item, item = Some se →
            (let! se := from_option item in Range_of se) w
            = (Return (range_new (next_ref w) se), allocated 3 w)).
  { by intros item ->. }
  assert (Hcollapsed : (λ p, (p, p)) <$> createAt_item node place = Some se →
            ∃ range k,
              Range_createCollapsedAt node place w = (Return range, allocated k w)
              ∧ range_at range = se).
  { destruct (createAt_item node place) as [t|] eqn:Ht; [|done]. intros [= <-].
    unfold Range_createCollapsedAt.
    returns (Position_createAt_run (inl node) place t w Ht).
    rewrite new_Range_run, allocated_allocated. do 2 eexists.
    split; [done|]. by rewrite range_at_new. }
  destruct place as [|o|str|n]; [done|exact Hcollapsed| |exact Hcollapsed].
  destruct (String.eqb_spec str "in") as [->|Hin].
  { intros Hse. do 2 eexists. split; [by apply Hfactory|]. by rewrite range_at_new. }
  destruct (String.eqb_spec str "on") as [->|Hon].
  { intros Hse. do 2 eexists. split; [by apply Hfactory|]. by rewrite range_at_new. }
  assert (Hplace :
    match a_string str with
    | undefined => throw view_selection_setTo_required_second_parameter
    | a_string "in" => Range_createIn node
    | a_string "on" => Range_createOn node
    | _ => Range_createCollapsedAt node (a_string str)
    end = Range_createCollapsedAt node (a_string str)
    ∧ placed node (a_string str)
      = (λ p, (p, p)) <$> createAt_item node (a_string str)).
  { unfold placed. repeat (case_match; try done); subst; by exfalso; auto. }
  destruct Hplace as [-> ->]. exact Hcollapsed.
Qed.

(** X15. [_setTo( item, place, options )] with a place that the factory
    of Range or Position accepts returns: the selection is left with one
    range, in the item for 'in', on it for 'on', collapsed at the offset
    otherwise; the direction and the fake flag are read from the third
    parameter. *)
Theorem setTo_node_places_range this s node place options se w :
  selections w !! this = Some s →
  placed node place = Some se →
  ∃ range s' w',
    _setTo this (a_Node node) place options w = (Return tt, w')
    ∧ selections w' = <[this := s']> (selections w)
    ∧ fired w' = fired w ++ [(this, "change")]
    ∧ _ranges s' = [range] ∧ range_at range = se
    ∧ _lastRangeBackward s' = truthy (prop_backward options)
    ∧ isFake s' = truthy (prop_fake options).
Proof.
  intros Hs Hse. destruct (placed_run node place se w Hse) as (r0 & k & Hrun & Hat).
  unfold _setTo. cbv zeta.
  erewrite (bind_Return (bind _ _));
    [|returns Hrun;
      erewrite (bind_Return (_setRanges _ _ _));
        [|by apply (_setRanges_single_run this s)];
      erewrite _setFakeOptions_run by apply lookup_insert_eq; reflexivity].
  rewrite stored_stored. do 3 eexists. split; [reflexivity|].
  split; [done|]. split; [done|]. split; [reflexivity|].
  by rewrite range_at_new.
Qed.

(** ** Equality and similarity as relations *)

Lemma isEqual_true_iff this otherSelection a b w :
  selections w !! this = Some a → selections w !! otherSelection = Some b →
  (isEqual this otherSelection w).1 = Return true ↔ equal_as_checked a b.
Proof.
  intros Ha Hb. destruct (isEqual_run _ _ _ _ w Ha Hb) as [k ->]. simpl.
  rewrite <- equal_as_checked_run. split; [by intros [= ->]|by intros ->].
Qed.

Lemma isSimilar_true_iff this otherSelection a b w :
  selections w !! this = Some a → selections w !! otherSelection = Some b →
  (isSimilar this otherSelection w).1 = Return true ↔ similar a b.
Proof.
  intros Ha Hb. destruct (isSimilar_run _ _ _ _ w Ha Hb) as [k ->]. simpl.
  rewrite <- similar_run. split; [by intros [= ->]|by intros ->].
Qed.

Lemma last_of_same_count (a b : Selection) ra :
  rangeCount a = rangeCount b → last (_ranges a) = Some ra →
  ∃ rb, last (_ranges b) = Some rb.
Proof.
  unfold rangeCount. intros Hcount Hra. apply last_is_Some.
  intros Hb. rewrite Hb in Hcount. apply nil_length_inv in Hcount.
  by rewrite Hcount in Hra.
Qed.

Lemma equal_as_checked_refl a : equal_as_checked a a.
Proof.
  split; [done|]. split; [done|]. split.
  - intros ra rb Hra Hrb. by assert (ra = rb) as -> by congruence.
  - intros r Hr. by exists r.
Qed.

Lemma equal_as_checked_trans a b c :
  equal_as_checked a b → equal_as_checked b c → equal_as_checked a c.
Proof.
  intros ([Hf1 Hl1] & Hc1 & Haf1 & Hr1) ([Hf2 Hl2] & Hc2 & Haf2 & Hr2).
  split; [|split; [congruence|split]].
  - split; [congruence|]. intros Hfake. rewrite (Hl1 Hfake). apply Hl2. congruence.
  - intros ra rc Hra Hrc.
    destruct (last_of_same_count a b ra Hc1 Hra) as [rb Hrb].
    destruct (Haf1 ra rb Hra Hrb) as [-> ->]. by apply Haf2.
  - intros r Hr. destruct (Hr1 r Hr) as (r1 & Hr1' & ->).
    destruct (Hr2 r1 Hr1') as (r2 & Hr2' & ->). by exists r2.
Qed.

(** X16. [isEqual] is reflexive and transitive: a selection is equal to
    itself, and a selection equal to one that is equal to a third is equal
    to the third. *)
Theorem isEqual_reflexive_transitive x y z a b c w :
  selections w !! x = Some a → selections w !! y = Some b →
  selections w !! z = Some c →
  (isEqual x x w).1 = Return true
  ∧ ((isEqual x y w).1 = Return true → (isEqual y z w).1 = Return true →
     (isEqual x z w).1 = Return true).
Proof.
  intros Ha Hb Hc. split.
  - apply (isEqual_true_iff x x a a w Ha Ha), equal_as_checked_refl.
  - rewrite (isEqual_true_iff x y a b w Ha Hb), (isEqual_true_iff y z b c w Hb Hc),
      (isEqual_true_iff x z a c w Ha Hc).
    apply equal_as_checked_trans.
Qed.

(** X17. [isSimilar] is reflexive and transitive. *)
Theorem isSimilar_reflexive_transitive x y z a b c w :
  selections w !! x = Some a → selections w !! y = Some b →
  selections w !! z = Some c →
  (isSimilar x x w).1 = Return true
  ∧ ((isSimilar x y w).1 = Return true → (isSimilar y z w).1 = Return true →
     (isSimilar x z w).1 = Return true).
Proof.
  intros Ha Hb Hc. split.
  - apply (isSimilar_true_iff x x a a w Ha Ha).
    split; [done|]. split; [done|]. intros r Hr. by exists r.
  - rewrite (isSimilar_true_iff x y a b w Ha Hb),
      (isSimilar_true_iff y z b c w Hb Hc), (isSimilar_true_iff x z a c w Ha Hc).
    intros (Hb1 & Hc1 & Hr1) (Hb2 & Hc2 & Hr2).
    split; [congruence|]. split; [congruence|].
    intros r Hr. destruct (Hr1 r Hr) as (r1 & Hr1' & ->).
    destruct (Hr2 r1 Hr1') as (r2 & Hr2' & ->). by exists r2.
Qed.

(** X18. Selections that [isEqual] finds equal and that have the same
    direction are similar; the direction has to be asked for: [isEqual]
    looks at the anchor and the focus and, on selections without ranges,
    at neither. *)
Theorem equal_same_direction_similar x y a b w :
  selections w !! x = Some a → selections w !! y = Some b →
  (isEqual x y w).1 = Return true → isBackward a = isBackward b →
  (isSimilar x y w).1 = Return true.
Proof.
  intros Ha Hb. rewrite (isEqual_true_iff x y a b w Ha Hb),
    (isSimilar_true_iff x y a b w Ha Hb).
  intros (_ & Hcount & _ & Hfound) Hback. split; [done|]. split; [done|].
  intros r Hr. destruct (Hfound r Hr) as (r' & Hr' & Hat).
  exists r'. split; [done|]. by rewrite Hat.
Qed.

(** ** Anchor, focus and direction *)

(** X19. The anchor and the focus follow [isBackward], the direction that
    callers can read: on a backward selection the anchor is at the end of
    the range added last and the focus at its start, and the other way
    round on any other selection with a range, also when the direction
    flag is set on a collapsed selection. *)
Theorem anchor_focus_follow_isBackward this s range w :
  selections w !! this = Some s → last (_ranges s) = Some range →
  ∃ a f,
    anchor this w = (Return (Some a), allocated 1 w)
    ∧ focus this w = (Return (Some f), allocated 1 w)
    ∧ pos_at a = pos_at (if isBackward s then end_ range else start range)
    ∧ pos_at f = pos_at (if isBackward s then start range else end_ range).
Proof.
  intros Hs Hlast. do 2 eexists.
  split; [by apply anchor_last|]. split; [by apply focus_last|].
  unfold anchor_at, focus_at, isBackward, isCollapsed, rangeCount. cbn [pos_at].
  destruct (_lastRangeBackward s); [|by rewrite andb_false_r].
  rewrite andb_true_r.
  destruct (_ranges s) as [|r0 [|r1 l]] eqn:Hl; [done| |done].
  simpl in Hlast. injection Hlast as ->. simpl.
  unfold Range_isCollapsed, Position_isEqual.
  case_bool_decide as Hse; simpl; [by rewrite Hse|done].
Qed.

(** X20. When [_setFocus] returns, the anchor is where it was, and the
    focus is at the position asked for, or where it was if the position
    asked for compares as 'same' with it. *)
Theorem setFocus_moves_focus_only this s earlier range itemOrPosition offset t w w' :
  selections w !! this = Some s →
  _ranges s = earlier ++ [range] →
  target_of itemOrPosition offset = Some t →
  _setFocus this itemOrPosition offset w = (Return tt, w') →
  ∃ a f,
    (anchor this w').1 = Return (Some a) ∧ pos_at a = anchor_at s range
    ∧ (focus this w').1 = Return (Some f)
    ∧ pos_at f = (if String.eqb (compareWith t (focus_at s range)) "same"
                  then focus_at s range else t).
Proof.
  intros Hs Hl Ht. rewrite (_setFocus_run _ _ _ _ _ _ _ _ Hs Hl Ht).
  assert (Hlast : last (_ranges s) = Some range) by (by rewrite Hl, last_snoc).
  destruct (String.eqb (compareWith t (focus_at s range)) "same").
  - intros [= <-]. do 2 eexists.
    rewrite (anchor_last this s range (allocated 3 w) Hs Hlast).
    rewrite (focus_last this s range (allocated 3 w) Hs Hlast). done.
  - cbv zeta. destruct (first_intersecting _ earlier) as [[]|]; [done|].
    intros [= <-].
    set (a := anchor_at s range).
    set (new := range_new (7 + next_ref w) (moved_range a t)).
    set (s' := set_lastRangeBackward (moved_backward a t)
                 (set_ranges (earlier ++ [new]) s)).
    assert (Hs' : selections (notified this (stored this s' (allocated 10 w))) !! this
                  = Some s') by apply lookup_insert_eq.
    assert (Hlast' : last (_ranges s') = Some new) by apply last_snoc.
    change (S (S (S (S (S (S (S (next_ref w)))))))) with (7 + next_ref w).
    fold new. fold s'. do 2 eexists.
    rewrite (anchor_last this s' new _ Hs' Hlast').
    rewrite (focus_last this s' new _ Hs' Hlast').
    unfold anchor_at, focus_at, s', new, moved_range. cbn.
    by destruct (moved_backward a t).
Qed.

(** ** No range object is stored twice *)

Lemma unshared_sub this s' w :
  unshared w →
  (∀ i r, _ranges s' !! i = Some r →
     ∃ s, selections w !! this = Some s ∧ _ranges s !! i = Some r) →
  unshared (stored this s' w).
Proof.
  intros Hw Hsub.
  assert (Hold : ∀ o so i r, selections (stored this s' w) !! o = Some so →
            _ranges so !! i = Some r →
            ∃ s, selections w !! o = Some s ∧ _ranges s !! i = Some r).
  { intros o so i r. simpl. destruct (decide (this = o)) as [->|Hne].
    - rewrite lookup_insert_eq. intros [= <-]. apply Hsub.
    - rewrite lookup_insert_ne by done. intros Ho Hi. by exists so. }
  intros o1 s1 i r1 o2 s2 j r2 H1 Hi H2 Hj Hne.
  destruct (Hold _ _ _ _ H1 Hi) as (s1' & H1' & Hi').
  destruct (Hold _ _ _ _ H2 Hj) as (s2' & H2' & Hj').
  exact (Hw o1 s1' i r1 o2 s2' j r2 H1' Hi' H2' Hj' Hne).
Qed.

Lemma unshared_pushed this s se w :
  all_allocated w → unshared w → selections w !! this = Some s →
  unshared (stored this (set_ranges (_ranges s ++ [range_new (next_ref w) se]) s)
              (allocated 3 w)).
Proof.
  intros Hall Hw Hs.
  set (new := range_new (next_ref w) se).
  assert (Hcases : ∀ o so i r,
            selections (stored this (set_ranges (_ranges s ++ [new]) s)
                          (allocated 3 w)) !! o = Some so →
            _ranges so !! i = Some r →
            (∃ s0, selections w !! o = Some s0 ∧ _ranges s0 !! i = Some r
                   ∧ range_below (next_ref w) r)
            ∨ (o = this ∧ i = length (_ranges s) ∧ r = new)).
  { intros o so i r. simpl. destruct (decide (this = o)) as [->|Hne].
    - rewrite lookup_insert_eq. intros [= <-]. simpl.
      intros [[Hi Hr]|[-> <-]]%lookup_snoc_Some; [left|by right].
      exists s. split; [done|]. split; [done|].
      destruct (Hall o s Hs) as [_ Hbelow].
      rewrite Forall_forall in Hbelow. apply Hbelow.
      by apply list_elem_of_lookup_2 in Hr.
    - rewrite lookup_insert_ne by done. intros Ho Hi. left.
      exists so. split; [done|]. split; [done|].
      destruct (Hall o so Ho) as [_ Hbelow].
      rewrite Forall_forall in Hbelow. apply Hbelow.
      by apply list_elem_of_lookup_2 in Hi. }
  assert (Hnew : allocated_from (next_ref w) new) by (by apply allocated_from_new).
  intros o1 s1 i r1 o2 s2 j r2 H1 Hi H2 Hj Hne x Hx1 Hx2.
  destruct (Hcases _ _ _ _ H1 Hi) as [(s1' & H1' & Hi' & Hb1)|(-> & -> & ->)],
    (Hcases _ _ _ _ H2 Hj) as [(s2' & H2' & Hj' & Hb2)|(-> & -> & ->)].
  - exact (Hw o1 s1' i r1 o2 s2' j r2 H1' Hi' H2' Hj' Hne x Hx1 Hx2).
  - exact (allocated_from_below _ _ _ x Hnew Hb1 Hx2 Hx1).
  - exact (allocated_from_below _ _ _ x Hnew Hb2 Hx1 Hx2).
  - done.
Qed.

(** X21. In every reachable world no object is stored twice: a range
    stored in a selection, and each of its two positions, is an object of
    no range stored in another selection or at another index of the same
    selection, also after a selection has been set to another one. *)
Theorem reachable_ranges_unshared w o1 s1 i r1 o2 s2 j r2 :
  reachable w →
  selections w !! o1 = Some s1 → _ranges s1 !! i = Some r1 →
  selections w !! o2 = Some s2 → _ranges s2 !! j = Some r2 →
  (o1, i) ≠ (o2, j) →
  ∀ x, x ∈ refs_of r1 → x ∉ refs_of r2.
Proof.
  intros Hw. revert o1 s1 i r1 o2 s2 j r2. fold (unshared w).
  pose proof (reachable_all_allocated w Hw) as Hall. revert Hall.
  assert (Hboth : all_allocated w ∧ unshared w); [|by destruct Hboth].
  revert w Hw.
  apply (reachable_invariant (λ w, all_allocated w ∧ unshared w)).
  - intros n. split.
    + intros this s. simpl. by rewrite lookup_empty.
    + intros o1 s1 i r1 ???? H1. simpl in H1. by rewrite lookup_empty in H1.
  - intros k w [Hall Hun]. split; [by apply all_allocated_allocated|done].
  - intros this w HI. exact HI.
  - intros w [Hall Hun]. split.
    + apply all_allocated_stored; simpl; [|lia|done].
      by apply all_allocated_allocated.
    + apply (unshared_sub _ _ (allocated 1 w)); [done|]. by intros i r.
  - intros this s w [Hall Hun] Hs. destruct (Hall this s Hs). split.
    + by apply all_allocated_stored.
    + apply unshared_sub; [done|]. by intros i r.
  - intros this s w [Hall Hun] Hs. destruct (Hall this s Hs). split.
    + apply all_allocated_stored; [done..|]. by apply Forall_take.
    + apply unshared_sub; [done|]. intros i r [Hi _]%lookup_take_Some.
      by exists s.
  - intros this s range w [Hall Hun] Hs _. destruct (Hall this s Hs) as [Hthis Hl].
    split.
    + apply all_allocated_stored; simpl; [by apply all_allocated_allocated|lia|].
      apply Forall_app. split.
      * eapply Forall_impl; [done|]. intros r. apply range_below_le. lia.
      * apply Forall_singleton, range_below_new.
    + by apply unshared_pushed.
  - intros this s b w [Hall Hun] Hs. destruct (Hall this s Hs). split.
    + by apply all_allocated_stored.
    + apply unshared_sub; [done|]. intros i r Hi. by exists s.
  - intros this s b l w [Hall Hun] Hs _. destruct (Hall this s Hs). split.
    + by apply all_allocated_stored.
    + apply unshared_sub; [done|]. intros i r Hi. by exists s.
Qed.

(** ** The tree around the selection *)

Section tree_properties.
Context `{!Tree}.

(** X22. [getSelectedElement] never throws and changes no selection.  It
    returns an element exactly when the selection has one range, that
    element is the node after the start of the range and the node before
    its end; it returns null otherwise, so on every selection that has no
    range or more than one. *)
Theorem getSelectedElement_one_element this s w :
  selections w !! this = Some s →
  ∃ result k,
    getSelectedElement this w = (Return result, allocated k w)
    ∧ ∀ e, result = Some e
           ↔ ∃ r, _ranges s = [r] ∧ isElement e = true
                  ∧ nodeAfter (pos_at (start r)) = Some e
                  ∧ nodeBefore (pos_at (end_ r)) = Some e.
Proof.
  intros Hs. unfold getSelectedElement. returns (read_run _ _ w Hs).
  unfold rangeCount.
  destruct (_ranges s) as [|r [|r' l]] eqn:Hl; cbn [length Nat.eqb negb].
  - exists None, 0. rewrite allocated_0. split; [done|].
    intros e. split; [done|]. by intros (r & ? & _).
  - assert (Hrun : getFirstRange this w
                   = (Return (Some (range_new (next_ref w) (range_at r))),
                      allocated 3 w)).
    { unfold getFirstRange. returns (read_run _ _ w Hs). by rewrite Hl. }
    returns Hrun. cbn [start end_ range_new pos_at fst snd range_at].
    destruct (nodeAfter (pos_at (start r))) as [node|] eqn:Hafter.
    + destruct (isElement node) eqn:Helement; simpl.
      * case_bool_decide as Hsame.
        -- exists (Some node), 3. split; [done|]. intros e. split.
           ++ intros [= <-]. by exists r.
           ++ intros (r0 & [= <-] & _ & He & _). congruence.
        -- exists None, 3. split; [done|]. intros e. split; [done|].
           intros (r0 & [= <-] & _ & He & Hbefore). congruence.
      * exists None, 3. split; [done|]. intros e. split; [done|].
        intros (r0 & [= <-] & He & Hafter' & _). congruence.
    + exists None, 3. split; [done|]. intros e. split; [done|].
      intros (r0 & [= <-] & _ & He & _). congruence.
  - exists None, 0. rewrite allocated_0. split; [done|].
    intros e. split; [done|]. by intros (r0 & ? & _).
Qed.

(** X23. [editableElement] is null on a selection without ranges, and
    otherwise the editable element of the anchor: of the start of the
    range added last, or of its end if that range was added backward.  It
    changes no selection. *)
Theorem editableElement_of_anchor this s w :
  selections w !! this = Some s →
  ∃ k,
    editableElement this w
    = (Return match last (_ranges s) with
              | Some range => editableElement_at (anchor_at s range)
              | None => None
              end,
       allocated k w).
Proof.
  intros Hs. unfold editableElement.
  destruct (last (_ranges s)) as [range|] eqn:Hlast.
  - returns (anchor_last this s range w Hs Hlast).
    returns (anchor_last this s range (allocated 1 w) Hs Hlast).
    exists 2. by rewrite allocated_allocated.
  - pose proof (anchor_run this s w Hs) as Hrun. rewrite Hlast in Hrun.
    returns Hrun. exists 0. by rewrite allocated_0.
Qed.

End tree_properties.

End properties.

(** * The properties on the document of one text node *)

Import Text.

Lemma text_isIntersecting_symmetric (r o : nat * nat) :
  isIntersecting (Collaborators := text) r o = isIntersecting (Collaborators := text) o r.
Proof. apply andb_comm. Defined.

Lemma text_before_irreflexive (p : nat) :
  compareWith (Collaborators := text) p p ≠ "before".
Proof. simpl. by rewrite Nat.ltb_irrefl, Nat.eqb_refl. Defined.

Lemma two_selections_reachable : reachable two_selections.
Proof. apply (reach_new two_ranges), (reach_new nothing), reach_nothing. Defined.

(** The generator of [getRanges] reads [_ranges] after [_setRanges] has
    cleared it: a selection set to itself loses its ranges. *)
Lemma setTo_itself_clears :
  selections (_setTo 0 (a_Selection 0) undefined undefined one_range).2 !! 0
  = Some (plain [] false).
Proof. vm_compute. reflexivity. Qed.

(** C1 on a selection constructed from the ranges 0..2 and 3..5. *)
Lemma reachable_ranges_disjoint_witness :
  pairwise_disjoint [copy 1 0 2; copy 4 3 5].
Proof.
  apply (reachable_ranges_disjoint two_ranges 0 (plain [copy 1 0 2; copy 4 3 5] false)).
  - apply (reach_new nothing), reach_nothing.
  - vm_compute. reflexivity.
  - exact text_isIntersecting_symmetric.
Defined.

(** C2 on the selection holding 0..2, handed 1..3. *)
Lemma addRange_intersecting_throws_witness :
  ∃ i storedRange,
    [copy 1 0 2] !! i = Some storedRange
    ∧ Range_isIntersecting (R 1 3) storedRange = true
    ∧ (∀ j earlier, [copy 1 0 2] !! j = Some earlier → j < i →
         Range_isIntersecting (R 1 3) earlier = false)
    ∧ _addRange 0 (a_Range (R 1 3)) false one_range
      = (Throw (view_selection_range_intersects (R 1 3) storedRange), one_range).
Proof.
  apply (addRange_intersecting_throws 0 (plain [copy 1 0 2] false)).
  - vm_compute. reflexivity.
  - exists (copy 1 0 2). split; [apply list_elem_of_here | reflexivity].
Defined.

(** C3 on the selection holding 0..2, forward: anchor at 0, focus at 2. *)
Lemma anchor_focus_of_last_range_witness :
  ∃ a f,
    anchor 0 one_range = (Return (Some a), allocated 1 one_range)
    ∧ focus 0 one_range = (Return (Some f), allocated 1 one_range)
    ∧ pos_at a = 0 ∧ pos_at f = 2
    ∧ independent one_range a ∧ independent one_range f.
Proof.
  apply (proj2 (anchor_focus_of_last_range one_range 0 (plain [copy 1 0 2] false)
                  (reach_new _ _ _ _ (reach_nothing 0)) eq_refl) [] (copy 1 0 2)).
  reflexivity.
Defined.

(** C4, as amended, on two selections constructed from the same two
    ranges. *)
Lemma isEqual_checks_ranges_one_way_witness :
  ∃ result w',
    isEqual 0 7 two_selections = (Return result, w')
    ∧ selections w' = selections two_selections ∧ fired w' = fired two_selections
    ∧ (result = true ↔ equal_as_checked (plain [copy 1 0 2; copy 4 3 5] false)
                                        (plain [copy 8 0 2; copy 11 3 5] false))
    ∧ (result = true ↔ equal_as_specified (plain [copy 1 0 2; copy 4 3 5] false)
                                          (plain [copy 8 0 2; copy 11 3 5] false)).
Proof.
  destruct (isEqual_checks_ranges_one_way 0 7
              (plain [copy 1 0 2; copy 4 3 5] false)
              (plain [copy 8 0 2; copy 11 3 5] false) two_selections)
    as (result & w' & Hrun & Hsel & Hfired & Hchecked & Hspecified).
  - vm_compute. reflexivity.
  - vm_compute. reflexivity.
  - exists result, w'.
    refine (conj Hrun (conj Hsel (conj Hfired (conj Hchecked (Hspecified _))))).
    apply (bool_decide_unpack _). vm_compute. exact I.
Defined.

(** C4 as stated fails: a selection constructed from the collapsed range
    at 1 twice and one constructed from the collapsed ranges at 3 and at 1
    have the same count, anchor and focus, and [isEqual] returns true of
    them, but their ranges do not match as multisets. *)
Lemma isEqual_true_on_different_multisets :
  reachable duplicates
  ∧ selections duplicates !! 0 = Some (plain [copy 1 1 1; copy 4 1 1] false)
  ∧ selections duplicates !! 7 = Some (plain [copy 8 3 3; copy 11 1 1] false)
  ∧ (isEqual 0 7 duplicates).1 = Return true
  ∧ ¬ equal_as_specified (plain [copy 1 1 1; copy 4 1 1] false)
                         (plain [copy 8 3 3; copy 11 1 1] false).
Proof.
  split; [apply (reach_new duplicate), (reach_new nothing), reach_nothing|].
  split; [vm_compute; reflexivity|]. split; [vm_compute; reflexivity|].
  split; [vm_compute; reflexivity|].
  intros (_ & _ & _ & Hperm). unfold ranges_match_as_multisets in Hperm.
  simpl in Hperm.
  assert ((3, 3) ∈ [(1, 1); (1, 1)]) as Hin.
  { rewrite Hperm. apply list_elem_of_here. }
  apply elem_of_cons in Hin as [[=]|Hin].
  apply elem_of_cons in Hin as [[=]|Hin].
  by apply not_elem_of_nil in Hin.
Qed.

(** C5 on the selection holding 0..2, its focus set to 2 again. *)
Lemma setFocus_same_focus_is_noop_witness :
  ∃ w', _setFocus 0 (inr (P 2)) undefined one_range = (Return tt, w')
        ∧ selections w' = selections one_range
        ∧ fired w' = fired one_range.
Proof.
  apply (setFocus_same_focus_is_noop 0 (plain [copy 1 0 2] false) [] (copy 1 0 2)
           (inr (P 2)) undefined 2 one_range); vm_compute; reflexivity.
Defined.

(** C6 on the selection anchored at 2 with its focus at 4, the focus
    moved to 0: one range 0..2, backward, one more change fired. *)
Lemma setFocus_replaces_last_range_witness :
  ∃ w' s',
    _setFocus 0 (inr (P 0)) undefined anchored_at_2 = (Return tt, w')
    ∧ selections w' = <[0 := s']> (selections anchored_at_2)
    ∧ range_at <$> _ranges s' = [(0, 2)]
    ∧ isBackward s' = true
    ∧ fired w' = fired anchored_at_2 ++ [(0, "change")].
Proof.
  destruct (setFocus_replaces_last_range 0 (plain [copy 1 2 4] false) [] (copy 1 2 4)
              (inr (P 0)) undefined 0 anchored_at_2)
    as (result & w' & s' & Hrun & Hsel & _ & _ & Hreturns & _);
    [vm_compute; reflexivity|reflexivity|reflexivity|vm_compute; discriminate|].
  destruct Hreturns as (added & -> & _ & _ & _ & Hfired & Hsingle).
  { intros storedRange Hin. by apply not_elem_of_nil in Hin. }
  destruct (Hsingle text_before_irreflexive eq_refl eq_refl) as [Hranges Hbackward].
  exists w', s'. exact (conj Hrun (conj Hsel (conj Hranges (conj Hbackward Hfired)))).
Defined.

(** C7 with the first of two selections as the source: a third selection
    constructed from it, and the second one set to it. *)
Lemma copy_of_selection_is_equal_witness :
  (∃ t w',
      new_Selection (a_Selection 0) undefined undefined two_selections = (Return t, w')
      ∧ selections two_selections !! t = None
      ∧ copied_to two_selections 0 (plain [copy 1 0 2; copy 4 3 5] false) t w')
  ∧ (∃ w',
       _setTo 7 (a_Selection 0) undefined undefined two_selections = (Return tt, w')
       ∧ copied_to two_selections 0 (plain [copy 1 0 2; copy 4 3 5] false) 7 w').
Proof.
  destruct (copy_of_selection_is_equal 0 (plain [copy 1 0 2; copy 4 3 5] false)
              undefined undefined two_selections) as [Hnew Hset].
  - exact two_selections_reachable.
  - vm_compute. reflexivity.
  - split; [exact Hnew|].
    apply (Hset 7 (plain [copy 8 0 2; copy 11 3 5] false)); [vm_compute; reflexivity|lia].
Defined.

(** C8 on the selection holding 0..2, which is not fake, and on
    [{ fake: false, label: 'x' }]: the label x is dropped. *)
Lemma fake_label_discarded_unless_fake_witness :
  fakeSelectionLabel (plain [copy 1 0 2] false) = ""
  ∧ ∃ s', _setFakeOptions 0 x_label one_range = (Return tt, stored 0 s' one_range)
          ∧ isFake s' = false ∧ fakeSelectionLabel s' = "".
Proof.
  destruct (fake_label_discarded_unless_fake one_range 0 (plain [copy 1 0 2] false))
    as [Hreachable Hoptions]; [vm_compute; reflexivity|].
  split; [apply Hreachable; [apply (reach_new nothing), reach_nothing|reflexivity]|].
  destruct (Hoptions x_label) as (s' & Hrun & Hfake & _ & Hlabel & _).
  exists s'. exact (conj Hrun (conj Hfake (Hlabel eq_refl))).
Defined.

(** C9 on the selection holding 0..2, its ranges replaced by 1..3, 2..4
    and 7..8: the second intersects the first, and 1..3 alone is left. *)
Lemma setRanges_keeps_ranges_before_failure_witness :
  ∃ e w' s',
    _setRanges 0 (array [a_Range (R 1 3); a_Range (R 2 4); a_Range (R 7 8)])
      false one_range
    = (Throw e, w')
    ∧ (∃ st, e = view_selection_range_intersects (R 2 4) st ∧ st ∈ _ranges s')
    ∧ selections w' = <[0 := s']> (selections one_range)
    ∧ range_at <$> _ranges s' = [(1, 3)]
    ∧ length (_ranges s') = 1.
Proof.
  destruct (setRanges_keeps_ranges_before_failure 0 (plain [copy 1 0 2] false)
              [R 1 3] (a_Range (R 2 4)) [a_Range (R 7 8)] false one_range)
    as (e & w' & s' & Hrun & _ & Herror & Hsel & Hranges & Hlength & _).
  - vm_compute. reflexivity.
  - split; [|exact I]. intros o Hin. by apply not_elem_of_nil in Hin.
  - right. exists (R 2 4), (R 1 3). split; [reflexivity|].
    split; [apply list_elem_of_here|reflexivity].
  - exists e, w', s'.
    exact (conj Hrun (conj (Herror _ eq_refl) (conj Hsel (conj Hranges Hlength)))).
Defined.

(** C10, as amended, on an empty fake selection and an empty plain one,
    both forward: similar, and not equal. *)
Lemma isSimilar_ignores_fake_metadata_witness :
  ∃ result w',
    isSimilar 0 1 fake_and_plain = (Return result, w')
    ∧ selections w' = selections fake_and_plain
    ∧ result = true
    ∧ (isEqual 0 1 fake_and_plain).1 = Return false.
Proof.
  destruct (isSimilar_ignores_fake_metadata 0 1 fake_selection (plain [] false)
              fake_and_plain)
    as (result & w' & Hrun & Hsel & _ & _ & _ & Hempty);
    [vm_compute; reflexivity|vm_compute; reflexivity|].
  destruct (Hempty eq_refl eq_refl eq_refl) as [Hresult HisEqual].
  exists result, w'.
  refine (conj Hrun (conj Hsel (conj Hresult (HisEqual _)))).
  intros [Hfake _]. discriminate Hfake.
Defined.

(** C10 as stated fails: [new Selection( [], { backward: true } )] and
    [new Selection()] have no ranges and the same fake metadata, and
    [isSimilar] returns false of them, the first being backward. *)
Lemma empty_selections_not_similar :
  reachable empties
  ∧ selections empties !! 0 = Some (plain [] true)
  ∧ selections empties !! 1 = Some (plain [] false)
  ∧ (isSimilar 0 1 empties).1 = Return false.
Proof.
  split; [apply (reach_new empty_backward), (reach_new nothing), reach_nothing|].
  repeat split; vm_compute; reflexivity.
Qed.

(** ** The further properties on the sample document *)

Lemma text_before_transitive (p q r : nat) :
  compareWith (Collaborators := text) p q = "before" →
  compareWith (Collaborators := text) q r = "before" →
  compareWith (Collaborators := text) p r = "before".
Proof.
  simpl. destruct (Nat.ltb_spec p q); [|by case_match].
  destruct (Nat.ltb_spec q r); [|by case_match].
  intros _ _. destruct (Nat.ltb_spec p r); [done|lia].
Defined.

Lemma text_after_irreflexive (p : nat) :
  compareWith (Collaborators := text) p p ≠ "after".
Proof. simpl. by rewrite Nat.ltb_irrefl, Nat.eqb_refl. Defined.

Lemma text_after_transitive (p q r : nat) :
  compareWith (Collaborators := text) p q = "after" →
  compareWith (Collaborators := text) q r = "after" →
  compareWith (Collaborators := text) p r = "after".
Proof.
  simpl. destruct (Nat.ltb_spec p q); [done|].
  destruct (Nat.eqb_spec p q); [done|].
  destruct (Nat.ltb_spec q r); [done|].
  destruct (Nat.eqb_spec q r); [done|]. intros _ _.
  destruct (Nat.ltb_spec p r); [lia|]. destruct (Nat.eqb_spec p r); [lia|done].
Defined.

Lemma text_accepts_apart : accepts [] [R 0 2; R 3 5].
Proof.
  split; [intros o Ho; by apply not_elem_of_nil in Ho|].
  split; [|done]. intros o Ho. apply list_elem_of_singleton in Ho. by subst o.
Defined.

Lemma text_rejects_overlapping : ¬ accepts [] [R 0 2; R 1 3].
Proof. intros [_ [Hsecond _]]. by specialize (Hsecond (0, 2) (list_elem_of_here _ _)). Defined.

(** X1 on [new Selection()]: no focus to move. *)
Lemma setFocus_without_ranges_throws_witness :
  _setFocus 1 (inr (P 0)) undefined empties
  = (Throw view_selection_setFocus_no_ranges, empties).
Proof.
  apply (setFocus_without_ranges_throws 1 (plain [] false));
    [vm_compute; reflexivity|reflexivity].
Defined.


(** X3 on the selection holding 0..2, set to null with
    [{ fake: true, label: 'x' }]. *)
Lemma setTo_null_empties_witness :
  ∃ s' w',
    _setTo 0 null fake_x undefined one_range = (Return tt, w')
    ∧ selections w' = <[0 := s']> (selections one_range)
    ∧ _ranges s' = [] ∧ isFake s' = true
    ∧ anchor 0 w' = (Return None, w').
Proof.
  destruct (setTo_null_empties 0 (plain [copy 1 0 2] false) fake_x undefined one_range)
    as (s' & w' & Hrun & Hsel & _ & Hranges & _ & Hfake & Hanchor & _);
    [vm_compute; reflexivity|].
  exists s', w'. exact (conj Hrun (conj Hsel (conj Hranges (conj Hfake Hanchor)))).
Defined.

(** X4 on the selection holding 0..2, set to the range 3..5 with
    [{ backward: true }]: anchor at 5, focus at 3. *)
Lemma setTo_range_stores_copy_witness :
  ∃ copy s' w',
    _setTo 0 (single_Range (R 3 5)) backward_option undefined one_range
    = (Return tt, w')
    ∧ _ranges s' = [copy] ∧ range_at copy = (3, 5)
    ∧ isBackward s' = true
    ∧ anchor_at s' copy = 5 ∧ focus_at s' copy = 3.
Proof.
  destruct (setTo_range_stores_copy 0 (plain [copy 1 0 2] false) (R 3 5)
              backward_option undefined one_range)
    as (copy & s' & w' & Hrun & _ & _ & Hranges & Hat & _ & Hback & Hanchor & Hfocus & _);
    [vm_compute; reflexivity|].
  exists copy, s', w'.
  exact (conj Hrun (conj Hranges (conj Hat (conj Hback (conj Hanchor Hfocus))))).
Defined.

(** X5 on the selection holding 0..2, set to the position 4. *)
Lemma setTo_position_collapses_witness :
  ∃ copy s' w',
    _setTo 0 (a_Position (P 4)) backward_option undefined one_range = (Return tt, w')
    ∧ _ranges s' = [copy] ∧ range_at copy = (4, 4)
    ∧ isCollapsed s' = true ∧ isBackward s' = false.
Proof.
  destruct (setTo_position_collapses 0 (plain [copy 1 0 2] false) (P 4)
              backward_option undefined one_range)
    as (copy & s' & w' & Hrun & _ & _ & Hranges & Hat & Hcollapsed & Hback & _);
    [vm_compute; reflexivity|].
  exists copy, s', w'.
  exact (conj Hrun (conj Hranges (conj Hat (conj Hcollapsed Hback)))).
Defined.

(** X6 on the selection holding 0..2: the ranges 0..2 and 3..5 are
    taken, the ranges 0..2 and 1..3 are refused without a change. *)
Lemma setTo_ranges_returns_iff_accepted_witness :
  (∃ s' w',
     _setTo 0 (ranges [R 0 2; R 3 5]) undefined undefined one_range = (Return tt, w')
     ∧ selections w' = <[0 := s']> (selections one_range)
     ∧ range_at <$> _ranges s' = [(0, 2); (3, 5)])
  ∧ (∃ e w',
       _setTo 0 (ranges [R 0 2; R 1 3]) undefined undefined one_range = (Throw e, w')
       ∧ fired w' = fired one_range).
Proof.
  split.
  - destruct (setTo_ranges_returns_iff_accepted 0 (plain [copy 1 0 2] false)
                [R 0 2; R 3 5] undefined undefined one_range)
      as [Haccepted _]; [vm_compute; reflexivity|].
    destruct (Haccepted text_accepts_apart) as (s' & w' & Hrun & Hsel & _ & Hat & _).
    exists s', w'. exact (conj Hrun (conj Hsel Hat)).
  - destruct (setTo_ranges_returns_iff_accepted 0 (plain [copy 1 0 2] false)
                [R 0 2; R 1 3] undefined undefined one_range)
      as [_ Hrejected]; [vm_compute; reflexivity|].
    exact (Hrejected text_rejects_overlapping).
Defined.

(** X7 on the first of the two selections. *)
Lemma getRanges_yields_copies_witness :
  ∃ yielded w',
    Array_from (getRanges 0) two_selections = (Return yielded, w')
    ∧ range_at <$> yielded = [(0, 2); (3, 5)]
    ∧ selections w' = selections two_selections
    ∧ ∀ r x, r ∈ yielded → x ∈ refs_of r → x ∉ refs_of (copy 8 0 2).
Proof.
  destruct (getRanges_yields_copies two_selections 0
              (plain [copy 1 0 2; copy 4 3 5] false))
    as (yielded & w' & Hrun & Hat & Hsel & _ & Hnew);
    [exact two_selections_reachable|vm_compute; reflexivity|].
  exists yielded, w'. split; [exact Hrun|]. split; [exact Hat|]. split; [exact Hsel|].
  intros r x Hr. apply (Hnew r 7 (plain [copy 8 0 2; copy 11 3 5] false));
    [exact Hr|vm_compute; reflexivity|apply list_elem_of_here].
Defined.

(** X8 on the selection holding 0..2, set to the ranges 0..2 and 3..5. *)
Lemma setTo_then_getRanges_witness :
  ∃ w' yielded w'',
    _setTo 0 (ranges [R 0 2; R 3 5]) undefined undefined one_range = (Return tt, w')
    ∧ Array_from (getRanges 0) w' = (Return yielded, w'')
    ∧ range_at <$> yielded = [(0, 2); (3, 5)].
Proof.
  apply (setTo_then_getRanges 0 (plain [copy 1 0 2] false) [R 0 2; R 3 5]);
    [vm_compute; reflexivity|exact text_accepts_apart].
Defined.

(** X9 on the selection holding 0..2 and 3..5. *)
Lemma getFirstRange_starts_first_witness :
  ∃ first returned position,
    first ∈ [copy 1 0 2; copy 4 3 5]
    ∧ getFirstRange 0 two_ranges = (Return (Some returned), allocated 3 two_ranges)
    ∧ range_at returned = range_at first
    ∧ getFirstPosition 0 two_ranges = (Return (Some position), allocated 4 two_ranges)
    ∧ pos_at position = pos_at (start first).
Proof.
  destruct (getFirstRange_starts_first 0 (plain [copy 1 0 2; copy 4 3 5] false)
              two_ranges) as [_ Hsome];
    [vm_compute; reflexivity|exact text_before_irreflexive
    |exact text_before_transitive|].
  destruct (Hsome ltac:(discriminate))
    as (first & copy & position & Hin & _ & Hrun & Hat & _ & Hposition & Hstart).
  exists first, copy, position.
  exact (conj Hin (conj Hrun (conj Hat (conj Hposition Hstart)))).
Defined.

(** X10 on the selection holding 0..2 and 3..5. *)
Lemma getLastRange_ends_last_witness :
  ∃ last returned position,
    last ∈ [copy 1 0 2; copy 4 3 5]
    ∧ getLastRange 0 two_ranges = (Return (Some returned), allocated 3 two_ranges)
    ∧ range_at returned = range_at last
    ∧ getLastPosition 0 two_ranges = (Return (Some position), allocated 4 two_ranges)
    ∧ pos_at position = pos_at (end_ last).
Proof.
  destruct (getLastRange_ends_last 0 (plain [copy 1 0 2; copy 4 3 5] false)
              two_ranges) as [_ Hsome];
    [vm_compute; reflexivity|exact text_after_irreflexive
    |exact text_after_transitive|].
  destruct (Hsome ltac:(discriminate))
    as (last & copy & position & Hin & _ & Hrun & Hat & _ & Hposition & Hend).
  exists last, copy, position.
  exact (conj Hin (conj Hrun (conj Hat (conj Hposition Hend)))).
Defined.

(** X11 on the two selections, the first set to ranges that overlap:
    the second is as it was. *)
Lemma setTo_fires_once_iff_returns_witness :
  selections (_setTo 0 (ranges [R 0 2; R 1 3]) undefined undefined
                two_selections).2 !! 7
  = selections two_selections !! 7.
Proof.
  apply (setTo_fires_once_iff_returns 0 (ranges [R 0 2; R 1 3]) undefined undefined
           two_selections).
  discriminate.
Defined.

(** X12 on the two selections: a third one constructed from 6..8. *)
Lemma new_Selection_leaves_others_witness :
  selections (new_Selection (single_Range (R 6 8)) undefined undefined
                two_selections).2 !! 7
  = Some (plain [copy 8 0 2; copy 11 3 5] false).
Proof.
  apply (new_Selection_leaves_others two_selections (single_Range (R 6 8))
           undefined undefined two_selections_reachable).
  vm_compute. reflexivity.
Defined.

(** X13 on the fake selection holding 2..4, its focus moved to 0. *)
Lemma setFocus_keeps_fake_and_others_witness :
  ∃ s', selections (_setFocus 0 (inr (P 0)) undefined fake_range).2 !! 0 = Some s'
        ∧ isFake s' = true ∧ fakeSelectionLabel s' = "x".
Proof.
  apply (setFocus_keeps_fake_and_others 0
           {| _ranges := [copy 1 2 4]; _lastRangeBackward := false;
              _isFake := true; _fakeSelectionLabel := "x" |}
           (inr (P 0)) undefined fake_range).
  vm_compute. reflexivity.
Defined.

(** X14 on the backward selection holding 0..2, set to itself. *)
Lemma setTo_itself_empties_witness :
  _setTo 0 (a_Selection 0) undefined undefined backward_range
  = (Return tt, notified 0 (stored 0 (plain [] true) backward_range)).
Proof.
  apply (setTo_itself_empties 0 (plain [copy 1 0 2] true)).
  vm_compute. reflexivity.
Defined.

(** X15 on the selection holding 0..2, set on child 5 with
    [{ backward: true }] as the third parameter. *)
Lemma setTo_node_places_range_witness :
  ∃ range s' w',
    _setTo 0 (a_Node 5) (a_string "on") backward_option one_range = (Return tt, w')
    ∧ selections w' = <[0 := s']> (selections one_range)
    ∧ _ranges s' = [range] ∧ range_at range = (5, 6)
    ∧ _lastRangeBackward s' = true.
Proof.
  destruct (setTo_node_places_range 0 (plain [copy 1 0 2] false) 5 (a_string "on")
              backward_option (5, 6) one_range)
    as (range & s' & w' & Hrun & Hsel & _ & Hranges & Hat & Hback & _);
    [vm_compute; reflexivity|reflexivity|].
  exists range, s', w'.
  exact (conj Hrun (conj Hsel (conj Hranges (conj Hat Hback)))).
Defined.

(** X16 on the three selections, the third a copy of the first. *)
Lemma isEqual_reflexive_transitive_witness :
  (isEqual 7 7 three_selections).1 = Return true
  ∧ (isEqual 7 14 three_selections).1 = Return true.
Proof.
  destruct (isEqual_reflexive_transitive 7 0 14
              (plain [copy 8 0 2; copy 11 3 5] false)
              (plain [copy 1 0 2; copy 4 3 5] false)
              (plain [copy 18 0 2; copy 24 3 5] false) three_selections)
    as [Hrefl Htrans]; [vm_compute; reflexivity..|].
  split; [exact Hrefl|]. apply Htrans; vm_compute; reflexivity.
Defined.

(** X17 on the three selections. *)
Lemma isSimilar_reflexive_transitive_witness :
  (isSimilar 7 7 three_selections).1 = Return true
  ∧ (isSimilar 7 14 three_selections).1 = Return true.
Proof.
  destruct (isSimilar_reflexive_transitive 7 0 14
              (plain [copy 8 0 2; copy 11 3 5] false)
              (plain [copy 1 0 2; copy 4 3 5] false)
              (plain [copy 18 0 2; copy 24 3 5] false) three_selections)
    as [Hrefl Htrans]; [vm_compute; reflexivity..|].
  split; [exact Hrefl|]. apply Htrans; vm_compute; reflexivity.
Defined.

(** X18 on the two selections. *)
Lemma equal_same_direction_similar_witness :
  (isSimilar 0 7 two_selections).1 = Return true.
Proof.
  apply (equal_same_direction_similar 0 7
           (plain [copy 1 0 2; copy 4 3 5] false)
           (plain [copy 8 0 2; copy 11 3 5] false) two_selections);
    vm_compute; reflexivity.
Defined.

(** X19 on the backward selection holding 0..2: anchor at 2, focus at 0. *)
Lemma anchor_focus_follow_isBackward_witness :
  ∃ a f,
    anchor 0 backward_range = (Return (Some a), allocated 1 backward_range)
    ∧ focus 0 backward_range = (Return (Some f), allocated 1 backward_range)
    ∧ pos_at a = 2 ∧ pos_at f = 0.
Proof.
  apply (anchor_focus_follow_isBackward 0 (plain [copy 1 0 2] true) (copy 1 0 2));
    [vm_compute; reflexivity|reflexivity].
Defined.

(** X20 on the selection anchored at 2 with its focus at 4, the focus
    moved to 0. *)
Lemma setFocus_moves_focus_only_witness :
  ∃ a f,
    (anchor 0 (_setFocus 0 (inr (P 0)) undefined anchored_at_2).2).1 = Return (Some a)
    ∧ pos_at a = 2
    ∧ (focus 0 (_setFocus 0 (inr (P 0)) undefined anchored_at_2).2).1 = Return (Some f)
    ∧ pos_at f = 0.
Proof.
  apply (setFocus_moves_focus_only 0 (plain [copy 1 2 4] false) [] (copy 1 2 4)
           (inr (P 0)) undefined 0 anchored_at_2);
    [vm_compute; reflexivity|reflexivity|reflexivity|vm_compute; reflexivity].
Defined.

(** X21 on the two selections, the second then set to the first: the
    first range of the one shares no object with that of the other. *)
Lemma reachable_ranges_unshared_witness :
  reachable second_set_to_first
  ∧ ∀ x, x ∈ refs_of (copy 1 0 2) → x ∉ refs_of (copy 17 0 2).
Proof.
  assert (Hreachable : reachable second_set_to_first)
    by apply (reach_setTo two_selections), two_selections_reachable.
  split; [exact Hreachable|].
  apply (reachable_ranges_unshared second_set_to_first
           0 (plain [copy 1 0 2; copy 4 3 5] false) 0 (copy 1 0 2)
           7 (plain [copy 17 0 2; copy 23 3 5] false) 0 (copy 17 0 2)).
  - exact Hreachable.
  - vm_compute. reflexivity.
  - reflexivity.
  - vm_compute. reflexivity.
  - reflexivity.
  - discriminate.
Defined.

(** X22 on the selection around child 2, an element. *)
Lemma getSelectedElement_one_element_witness :
  ∃ k, getSelectedElement 0 around_child_2
       = (Return (Some 2), allocated k around_child_2).
Proof.
  destruct (getSelectedElement_one_element 0 (plain [copy 1 2 3] false) around_child_2)
    as (result & k & Hrun & Hresult); [vm_compute; reflexivity|].
  exists k. rewrite Hrun. f_equal. f_equal. apply Hresult.
  exists (copy 1 2 3). split; [reflexivity|]. split; [reflexivity|].
  split; reflexivity.
Defined.

(** X23 on the selection anchored at 2. *)
Lemma editableElement_of_anchor_witness :
  ∃ k, editableElement 0 anchored_at_2 = (Return (Some 100), allocated k anchored_at_2).
Proof.
  destruct (editableElement_of_anchor 0 (plain [copy 1 2 4] false) anchored_at_2)
    as [k Hrun]; [vm_compute; reflexivity|].
  exists k. exact Hrun.
Defined.
